(** * RplidarRansac: the RANSAC line extractor of [src/ransac.cpp]

    A shallow embedding of [ransac::Ransac] and of [line_t], followed by the
    properties of the in-place partition ([pop_node], [restore_trial]), of the
    regression fitter ([compute_reg_line]), of the distance metric
    ([dst2_to_line]) and of the trial loop ([compute]).

    Conventions of the embedding.
    - [int] is [Z].  Signed overflow is undefined in C++, so the model
      describes the executions that stay inside the range of [int].
    - [float] and [double] are IEEE-754 binary32 and binary64 values, taken
      from the standard library's executable specification [SpecFloat]
      (round to nearest, ties to even; every operation is rounded to the type
      of its operands, as with FLT_EVAL_METHOD 0, and products are not fused
      with sums).  [fabs] is the absolute value; whether it is evaluated on
      the [float] or on its exact conversion to [double] makes no difference.
    - a [node_t] array is a [list node_t]; [nodes[i]] is [load nodes i].  An
      access outside the list is undefined in C++; the theorems carry the
      bounds under which [compute] performs none.
    - [rand()] is an oracle: [rand k] is the value of the [k]-th call, a
      non-negative number.
    - the debug output is off ([debug_enabled] is [false]) and is left
      out. *)

From stdpp Require Import base list sorting relations.
From Stdlib Require Import ZArith Lia.
From Stdlib Require Import Floats.SpecFloat.

Open Scope Z_scope.

(** ** Floating-point numbers *)

Abbreviation float := spec_float (only parsing).
Abbreviation double := spec_float (only parsing).

(** [float]: binary32. *)
Module F32.
Definition prec : Z := 24.
Definition emax : Z := 128.
Definition zero : float := S754_zero false.
Definition of_int (n : Z) : float := binary_normalize prec emax n 0 false.
Definition add : float -> float -> float := SFadd prec emax.
Definition sub : float -> float -> float := SFsub prec emax.
Definition mul : float -> float -> float := SFmul prec emax.
Definition div : float -> float -> float := SFdiv prec emax.
Definition neg : float -> float := SFopp.
Definition fabs : float -> float := SFabs.
Definition eqb : float -> float -> bool := SFeqb.
Definition leb : float -> float -> bool := SFleb.
Definition ltb : float -> float -> bool := SFltb.
(** [a > b] *)
Definition gtb (a b : float) : bool := SFltb b a.
Definition valid : float -> bool := valid_binary prec emax.
End F32.

(** [double]: binary64, with the conversions the code performs implicitly
    ([int] to [double], [float] to [double]) or by a cast ([(float) d]). *)
Module F64.
Definition prec : Z := 53.
Definition emax : Z := 1024.
Definition zero : double := S754_zero false.
Definition of_int (n : Z) : double := binary_normalize prec emax n 0 false.
Definition of_float (v : float) : double :=
  match v with
  | S754_finite s m e => binary_normalize prec emax (cond_Zopp s (Zpos m)) e s
  | _ => v
  end.
Definition to_float (v : double) : float :=
  match v with
  | S754_finite s m e =>
      binary_normalize F32.prec F32.emax (cond_Zopp s (Zpos m)) e s
  | _ => v
  end.
Definition add : double -> double -> double := SFadd prec emax.
Definition sub : double -> double -> double := SFsub prec emax.
Definition mul : double -> double -> double := SFmul prec emax.
Definition div : double -> double -> double := SFdiv prec emax.
Definition eqb : double -> double -> bool := SFeqb.
End F64.

Definition is_nan (v : spec_float) : bool :=
  match v with S754_nan => true | _ => false end.

Definition is_infinite (v : spec_float) : bool :=
  match v with S754_infinity _ => true | _ => false end.

(** ** Data model *)

Record node_t := Node { x : float; y : float; angle : float }.

Record line_t := Line { m : float; b : float }.

#[global] Instance node_t_inhabited : Inhabited node_t :=
  populate (Node F32.zero F32.zero F32.zero).

(** The object: its configuration and the result sequence [reg_lines]
    ([temp_nodes] is allocated by the constructor and never used). *)
Record Ransac := {
  max_trials : Z;
  sample_size : Z;
  sample_deviation : float;
  proximity_epsilon : float;
  line_consensus : Z;
  reg_lines : list line_t
}.

(** [nodes[i]] and [nodes[i] = v]. *)
Definition load (nodes : list node_t) (i : Z) : node_t :=
  nodes !!! Z.to_nat i.

Definition store (nodes : list node_t) (i : Z) (v : node_t) : list node_t :=
  <[Z.to_nat i := v]> nodes.

(** The active range [[0, size)] and the slots from [size] on. *)
Definition active (nodes : list node_t) (size : Z) : list node_t :=
  take (Z.to_nat size) nodes.

Definition removed (nodes : list node_t) (size : Z) : list node_t :=
  drop (Z.to_nat size) nodes.

(** ** Counted loops

    [for_up lo hi body] is [for (int i = lo; i < hi; i++) body] and
    [for_down hi lo body] is [for (int i = hi; i >= lo; i--) body], for
    bodies that assign neither [i] nor the bound. *)

Fixpoint iter_up {S : Type} (n : nat) (i : Z) (body : Z -> S -> S) (s : S) : S :=
  match n with
  | O => s
  | Datatypes.S n' => iter_up n' (i + 1) body (body i s)
  end.

Definition for_up {S : Type} (lo hi : Z) (body : Z -> S -> S) (s : S) : S :=
  iter_up (Z.to_nat (hi - lo)) lo body s.

Fixpoint iter_down {S : Type} (n : nat) (i : Z) (body : Z -> S -> S) (s : S) : S :=
  match n with
  | O => s
  | Datatypes.S n' => iter_down n' (i - 1) body (body i s)
  end.

Definition for_down {S : Type} (hi lo : Z) (body : Z -> S -> S) (s : S) : S :=
  iter_down (Z.to_nat (hi - lo + 1)) hi body s.

(** ** line_t *)

Definition get_x (l : line_t) (y : float) : float :=
  if F32.eqb (m l) (F32.of_int 0) then F32.of_int 0
  else F32.div (F32.sub y (b l)) (m l).

Definition get_y (l : line_t) (x : float) : float :=
  F32.add (F32.mul (m l) x) (b l).

(** ** Ransac::pop_node *)

Definition pop_node (node : Z) (nodes : list node_t) (size : Z)
  : list node_t * Z :=
  let popped := load nodes node in
  let nodes :=
    for_up node (size - 1) (fun i ns => store ns i (load ns (i + 1))) nodes in
  let nodes := store nodes (size - 1) popped in
  (nodes, size - 1).

(** ** Ransac::restore_trial *)

(** The inner loop: the index of the first largest angle of [[0, i]]. *)
Definition select_largest (nodes : list node_t) (i : Z) : Z :=
  for_up 1 (i + 1)
    (fun j select =>
       if F32.gtb (angle (load nodes j)) (angle (load nodes select))
       then j else select)
    0.

Definition swap_with_high (i : Z) (nodes : list node_t) : list node_t :=
  let select := select_largest nodes i in
  let high := load nodes i in
  let nodes := store nodes i (load nodes select) in
  store nodes select high.

Definition restore_trial (nodes : list node_t) (ref_index original_size size : Z)
  : list node_t * Z :=
  (for_down (original_size - 1) 1 swap_with_high nodes, original_size).

(** ** Ransac::dst2_to_line *)

Definition dst2_to_line (line : line_t) (x y : float) : float :=
  let numerator :=
    F32.fabs (F32.sub (F32.add (F32.mul (F32.neg (m line)) x) y) (b line)) in
  F32.div (F32.mul numerator numerator)
          (F32.add (F32.mul (m line) (m line)) (F32.of_int 1)).

(** ** Ransac::compute_reg_line *)

Record sums := Sums {
  x_sum : double; y_sum : double; x2_sum : double; xy_sum : double
}.

Definition sums_zero : sums := Sums F64.zero F64.zero F64.zero F64.zero.

Definition add_node (n : node_t) (s : sums) : sums :=
  {| x_sum := F64.add (x_sum s) (F64.of_float (x n));
     y_sum := F64.add (y_sum s) (F64.of_float (y n));
     x2_sum := F64.add (x2_sum s) (F64.of_float (F32.mul (x n) (x n)));
     xy_sum := F64.add (xy_sum s) (F64.of_float (F32.mul (x n) (y n))) |}.

Definition reg_sums (start end_ : Z) (nodes : list node_t) : sums :=
  for_up start end_ (fun i s => add_node (load nodes i) s) sums_zero.

Definition m_num (node_count : Z) (s : sums) : double :=
  F64.sub (F64.mul (F64.of_int node_count) (xy_sum s))
          (F64.mul (x_sum s) (y_sum s)).

Definition m_denom (node_count : Z) (s : sums) : double :=
  F64.sub (F64.mul (F64.of_int node_count) (x2_sum s))
          (F64.mul (x_sum s) (x_sum s)).

Definition b_num (s : sums) : double :=
  F64.sub (F64.mul (y_sum s) (x2_sum s)) (F64.mul (x_sum s) (xy_sum s)).

Definition b_denom (node_count : Z) (s : sums) : double :=
  F64.sub (F64.mul (F64.of_int node_count) (x2_sum s))
          (F64.mul (x_sum s) (x_sum s)).

(** Returns the status code (0 success, -1 failure) and [line], which the
    code receives by reference. *)
Definition compute_reg_line (start end_ : Z) (nodes : list node_t)
    (line : line_t) : Z * line_t :=
  let node_count := end_ - start in
  if node_count =? 0 then (-1, line) else
  let s := reg_sums start end_ nodes in
  if F64.eqb (m_denom node_count s) (F64.of_float F32.zero) then (-1, line) else
  let line :=
    {| m := F64.to_float (F64.div (m_num node_count s) (m_denom node_count s));
       b := b line |} in
  if F64.eqb (b_denom node_count s) F64.zero then (-1, line) else
  let line :=
    {| m := m line;
       b := F64.to_float (F64.div (b_num s) (b_denom node_count s)) |} in
  (0, line).

(** ** Ransac::compute *)

(** The state of the [while] loop.  [ls_rand_calls] counts the calls of
    [rand()] made so far. *)
Record loop_state := LoopState {
  ls_nodes : list node_t;
  ls_size : Z;
  ls_trial_count : Z;
  ls_lines : list line_t;
  ls_rand_calls : nat
}.

(** One turn of the neighbour loop (lines 97-116), on
    [(nodes, size, ref_index)]. *)
Definition pick_neighbour (deviation ref_angle : float) (i : Z)
    (s : list node_t * Z * Z) : list node_t * Z * Z :=
  let '(nodes, size, ref_index) := s in
  let pick :=
    if Z.rem i 2 =? 0 then Z.rem ((ref_index - 1) + size) size
    else Z.rem (ref_index + 1) size in
  if negb (pick =? ref_index)
     && F32.leb (F32.fabs (F32.sub (angle (load nodes pick)) ref_angle))
                deviation
  then
    let '(nodes, size) := pop_node pick nodes size in
    (nodes, size, if pick <? ref_index then ref_index - 1 else ref_index)
  else s.

(** Lines 93-119: draw the reference node, pop its neighbours, pop it. *)
Definition pop_sample (self : Ransac) (r : Z) (nodes : list node_t) (size : Z)
  : list node_t * Z * Z :=
  let ref_index := Z.rem r size in
  let ref_angle := angle (load nodes ref_index) in
  let '(nodes, size, ref_index) :=
    for_up 0 (sample_size self)
      (pick_neighbour (sample_deviation self) ref_angle)
      (nodes, size, ref_index) in
  let '(nodes, size) := pop_node ref_index nodes size in
  (nodes, size, ref_index).

(** Lines 122-130: the seed fit over [[size, original_trial_size)]. *)
Definition seed_fit (original_trial_size : Z) (nodes : list node_t) (size : Z)
    (line : line_t) : Z * line_t :=
  let sample_start := size in
  let sample_end := original_trial_size in
  if 2 <=? sample_end - sample_start
  then compute_reg_line sample_start sample_end nodes line
  else (-1, line).

(** One turn of the association loop (lines 134-140). *)
Definition associate_node (self : Ransac) (line : line_t) (i : Z)
    (s : list node_t * Z) : list node_t * Z :=
  let '(nodes, size) := s in
  let dst2 := dst2_to_line line (x (load nodes i)) (y (load nodes i)) in
  if F32.leb dst2 (F32.mul (proximity_epsilon self) (proximity_epsilon self))
  then pop_node i nodes size
  else s.

Definition associate (self : Ransac) (line : line_t) (nodes : list node_t)
    (size : Z) : list node_t * Z :=
  for_down (size - 1) 0 (associate_node self line) (nodes, size).

(** What a trial leaves behind before its last step: the array, the size,
    the reference index, the status of the seed fit, the number of popped
    nodes, the final status and the line. *)
Record trial_run := TrialRun {
  tr_nodes : list node_t;
  tr_size : Z;
  tr_ref_index : Z;
  tr_seed_status : Z;
  tr_popped_nodes : Z;
  tr_line_status : Z;
  tr_line : line_t
}.

(** Lines 91-161.  [line] is the local [line_t line] of the trial, which
    the code leaves uninitialised. *)
Definition run_trial (self : Ransac) (line : line_t) (r : Z)
    (nodes : list node_t) (size : Z) : trial_run :=
  let original_trial_size := size in
  let '(nodes, size, ref_index) := pop_sample self r nodes size in
  let '(seed_status, line) := seed_fit original_trial_size nodes size line in
  let '(nodes, size) :=
    if seed_status =? 0 then associate self line nodes size
    else (nodes, size) in
  let popped_nodes := original_trial_size - size in
  let '(line_status, line) :=
    if (line_consensus self <=? popped_nodes) && (seed_status =? 0)
    then compute_reg_line size original_trial_size nodes line
    else (-1, line) in
  TrialRun nodes size ref_index seed_status popped_nodes line_status line.

(** The body of the [while] loop. *)
Definition trial (self : Ransac) (rand : nat -> N) (line : line_t)
    (st : loop_state) : loop_state :=
  let original_trial_size := ls_size st in
  let r := Z.of_N (rand (ls_rand_calls st)) in
  let t := run_trial self line r (ls_nodes st) (ls_size st) in
  let lines :=
    if tr_line_status t =? 0 then ls_lines st ++ [tr_line t]
    else ls_lines st in
  let '(nodes, size) :=
    if negb (tr_line_status t =? 0)
    then restore_trial (tr_nodes t) (tr_ref_index t) original_trial_size
           (tr_size t)
    else (tr_nodes t, tr_size t) in
  {| ls_nodes := nodes;
     ls_size := size;
     ls_trial_count := ls_trial_count st + 1;
     ls_lines := lines;
     ls_rand_calls := Datatypes.S (ls_rand_calls st) |}.

Definition loop_guard (self : Ransac) (st : loop_state) : bool :=
  (0 <? ls_size st) && (ls_trial_count st <? max_trials self).

(** The [while] loop; [None] when [fuel] turns do not reach its exit. *)
Fixpoint while_trials (self : Ransac) (rand : nat -> N) (line : line_t)
    (fuel : nat) (st : loop_state) : option loop_state :=
  if loop_guard self st then
    match fuel with
    | O => None
    | Datatypes.S fuel' =>
        while_trials self rand line fuel' (trial self rand line st)
    end
  else Some st.

Definition initial_state (nodes : list node_t) (size : Z) : loop_state :=
  {| ls_nodes := nodes;
     ls_size := size;
     ls_trial_count := 0;
     ls_lines := [];
     ls_rand_calls := O |}.

Definition set_reg_lines (self : Ransac) (lines : list line_t) : Ransac :=
  {| max_trials := max_trials self;
     sample_size := sample_size self;
     sample_deviation := sample_deviation self;
     proximity_epsilon := proximity_epsilon self;
     line_consensus := line_consensus self;
     reg_lines := lines |}.

(** [compute(nodes, size)]: the object and the array after the call. *)
Definition compute (self : Ransac) (rand : nat -> N) (line : line_t)
    (fuel : nat) (nodes : list node_t) (size : Z)
  : option (Ransac * list node_t) :=
  match while_trials self rand line fuel (initial_state nodes size) with
  | Some st => Some (set_reg_lines self (ls_lines st), ls_nodes st)
  | None => None
  end.

(** One step of the loop, as a relation between the states at the start of
    consecutive trials. *)
Definition trial_step (self : Ransac) (rand : nat -> N) (line : line_t)
    (st st' : loop_state) : Prop :=
  loop_guard self st = true /\ st' = trial self rand line st.

(** ** Notions used by the statements *)

(** Ascending order of the angles, as [<=] on [float]. *)
Definition angle_le (p q : node_t) : Prop :=
  F32.leb (angle p) (angle q) = true.

Definition sorted_by_angle (nodes : list node_t) (size : Z) : Prop :=
  Sorted angle_le (active nodes size).

(** The least-squares sums of a list of points, accumulated from the left
    in double precision. *)
Definition sums_of (pts : list node_t) : sums :=
  fold_left (fun s n => add_node n s) pts sums_zero.

(** The points [[start, end_)] of the array. *)
Definition slice (start end_ : Z) (nodes : list node_t) : list node_t :=
  take (Z.to_nat (end_ - start)) (drop (Z.to_nat start) nodes).

Definition node_of_ints (px py : Z) : node_t :=
  Node (F32.of_int px) (F32.of_int py) F32.zero.

Definition angle_ordered (p : node_t) : Prop := is_nan (angle p) = false.

(** [nodes'] holds the points of [nodes], those of the first [n] slots in
    some order and the others in place. *)
Record rearranged (n : Z) (nodes nodes' : list node_t) : Prop := Rearranged {
  re_length : length nodes' = length nodes;
  re_active : active nodes' n ≡ₚ active nodes n;
  re_removed : removed nodes' n = removed nodes n
}.

(** [nodes'] with [size'] comes from [nodes] with [size] by popping: a
    rearrangement of the [size] active points whose first [size'] slots keep
    points of the active range in their order. *)
Record popped_from (nodes : list node_t) (size : Z)
    (nodes' : list node_t) (size' : Z) : Prop := PoppedFrom {
  pf_size : 0 <= size' <= size;
  pf_rearranged : rearranged size nodes nodes';
  pf_order : active nodes' size' `sublist_of` active nodes size
}.

(** Sums of the fit, each taken on its own over a list of points: the sum
    of [f p] in double precision, from the left. *)
Definition sigma (f : node_t -> double) (pts : list node_t) : double :=
  fold_left (fun acc p => F64.add acc (f p)) pts F64.zero.

Definition sigma_x : list node_t -> double :=
  sigma (fun p => F64.of_float (x p)).
Definition sigma_y : list node_t -> double :=
  sigma (fun p => F64.of_float (y p)).
Definition sigma_x2 : list node_t -> double :=
  sigma (fun p => F64.of_float (F32.mul (x p) (x p))).
Definition sigma_xy : list node_t -> double :=
  sigma (fun p => F64.of_float (F32.mul (x p) (y p))).

(** The squared distance of a point to a line, and the threshold. *)
Definition dst2 (line : line_t) (p : node_t) : float :=
  dst2_to_line line (x p) (y p).

Definition epsilon2 (self : Ransac) : float :=
  F32.mul (proximity_epsilon self) (proximity_epsilon self).

(** The test of the association loop: [dst2 <= epsilon2]. *)
Definition near_line (self : Ransac) (line : line_t) (p : node_t) : bool :=
  F32.leb (dst2 line p) (epsilon2 self).

Definition far_from_line (self : Ransac) (line : line_t) (p : node_t) : bool :=
  negb (near_line self line p).

(** ** Sample inputs *)

Module Sample.
Definition node (px py pangle : Z) : node_t :=
  Node (F32.of_int px) (F32.of_int py) (F32.of_int pangle).

Definition no_line : line_t := Line S754_nan S754_nan.

(** Four points on [y = 2x + 3], then two others. *)
Definition scan : list node_t :=
  [node 0 3 0; node 1 5 1; node 2 7 2; node 3 9 3; node 10 1 4; node 11 0 5].

Definition ransac : Ransac :=
  {| max_trials := 5; sample_size := 3;
     sample_deviation := F32.of_int 2; proximity_epsilon := F32.of_int 1;
     line_consensus := 3; reg_lines := [] |}.

(** With [line_consensus] out of reach every trial fails. *)
Definition strict : Ransac :=
  {| max_trials := 5; sample_size := 3;
     sample_deviation := F32.of_int 2; proximity_epsilon := F32.of_int 1;
     line_consensus := 100; reg_lines := [] |}.

Definition rand (k : nat) : N := 1%N.

(** Two points of [y = 2x + 3] whose products need 25 bits. *)
Definition on_line_far : list node_t := [node 4097 8197 0; node 4098 8199 1].

Definition single : list node_t := [node 4097 1 0].
Definition vertical : list node_t := [node 4097 0 0; node 4097 1 1].
Definition single_far : list node_t := [node (2 ^ 70) 0 0].

(** A scan whose first two points span a steep line; the array once the
    sample of a trial drawn at index 0 is popped, and the line fitted to that
    sample. *)
Definition wall : list node_t :=
  [node 0 0 0; node 1 (2 ^ 100) 1; node 1 0 100].
Definition wall_popped : list node_t :=
  [node 1 0 100; node 0 0 0; node 1 (2 ^ 100) 1].
Definition steep : line_t := Line (F32.of_int (2 ^ 100)) F32.zero.
Definition wall_ransac : Ransac :=
  {| max_trials := 1; sample_size := 2;
     sample_deviation := F32.of_int 1; proximity_epsilon := F32.of_int 1;
     line_consensus := 2; reg_lines := [] |}.

(** Angles 2, NaN, 1. *)
Definition nan_scan : list node_t :=
  [node 0 0 2; Node F32.zero F32.zero S754_nan; node 0 0 1].
End Sample.

(** ** Notions used by the further properties *)

(** Strictly ascending angles. *)
Definition angle_lt (p q : node_t) : Prop :=
  F32.ltb (angle p) (angle q) = true.

Definition strictly_sorted_by_angle (nodes : list node_t) (size : Z) : Prop :=
  Sorted angle_lt (active nodes size).

(** The sign bit of a number (clear for NaN, which has none here). *)
Definition sign_bit (v : spec_float) : bool :=
  match v with
  | S754_zero s | S754_infinity s | S754_finite s _ _ => s
  | S754_nan => false
  end.

(** The least number of points an accepted line consumes. *)
Definition block_min (self : Ransac) : Z := Z.max 2 (line_consensus self).

(** [lines], in the order of their acceptance, are the fits of consecutive
    blocks of [nodes] that tile [[lo, hi)] from [hi] downwards, each of at
    least [block_min] points; the fit of a block does not depend on the line
    passed by reference. *)
Fixpoint tiles (self : Ransac) (nodes : list node_t) (hi : Z)
    (lines : list line_t) (lo : Z) : Prop :=
  match lines with
  | [] => lo = hi
  | l :: rest =>
      exists mid,
        lo <= mid /\ mid + block_min self <= hi
        /\ (forall l0, compute_reg_line mid hi nodes l0 = (0, l))
        /\ tiles self nodes mid rest lo
  end.

(** The test of the neighbour loop on a point, for the angle of the
    reference point. *)
Definition within_deviation (self : Ransac) (ref_angle : float) (p : node_t)
  : bool :=
  F32.leb (F32.fabs (F32.sub (angle p) ref_angle)) (sample_deviation self).

(** ** The fit in double precision

    The fit as the spec words it, to be compared with [compute_reg_line]:
    the normal equations on the sums of [x], [y], [x*x] and [x*y] of the
    points, with the products taken in double precision like the sums;
    [None] when there is no point or the denominator is zero. *)
Definition add_node_double (n : node_t) (s : sums) : sums :=
  let dx := F64.of_float (x n) in
  let dy := F64.of_float (y n) in
  {| x_sum := F64.add (x_sum s) dx;
     y_sum := F64.add (y_sum s) dy;
     x2_sum := F64.add (x2_sum s) (F64.mul dx dx);
     xy_sum := F64.add (xy_sum s) (F64.mul dx dy) |}.

Definition least_squares (pts : list node_t) : option line_t :=
  let n := Z.of_nat (length pts) in
  let s := fold_left (fun s p => add_node_double p s) pts sums_zero in
  if (n =? 0) || F64.eqb (m_denom n s) F64.zero then None
  else Some {| m := F64.to_float (F64.div (m_num n s) (m_denom n s));
               b := F64.to_float (F64.div (b_num s) (m_denom n s)) |}.

(** ** Further sample inputs *)

Module Probe.
(** [Sample.scan] once its second point is popped from the first four. *)
Definition shuffled : list node_t :=
  [Sample.node 0 3 0; Sample.node 2 7 2; Sample.node 3 9 3;
   Sample.node 1 5 1; Sample.node 10 1 4; Sample.node 11 0 5].

Definition one_point : list node_t := [Sample.node 0 3 0].

Definition line : line_t := Line (F32.of_int 2) (F32.of_int 3).
End Probe.

(** * Properties *)

(** ** The order of [float] values

    [SFcompare] is a lexicographic comparison, so [<=] is transitive on all
    values and total on those that are not NaN. *)

Section FloatOrder.

#[local] Ltac cmp_cases :=
  repeat match goal with
  | |- context [Z.compare ?a ?b] => destruct (Z.compare_spec a b)
  | H : context [Z.compare ?a ?b] |- _ => destruct (Z.compare_spec a b)
  | |- context [Pos.compare_cont Eq ?a ?b] =>
      change (Pos.compare_cont Eq a b) with (Pos.compare a b);
      destruct (Pos.compare_spec a b)
  | H : context [Pos.compare_cont Eq ?a ?b] |- _ =>
      change (Pos.compare_cont Eq a b) with (Pos.compare a b) in H;
      destruct (Pos.compare_spec a b)
  end.

#[local] Ltac float_cases :=
  repeat match goal with
  | v : spec_float |- _ => destruct v as [[]|[]| |[] ? ?]
  end;
  cbn in *; try discriminate; try reflexivity.

#[local] Ltac order_cases :=
  float_cases; cmp_cases; cbn in *;
  try discriminate; try reflexivity; intros; lia.

Lemma SFleb_trans (u v w : spec_float) :
  SFleb u v = true -> SFleb v w = true -> SFleb u w = true.
Proof. unfold SFleb, SFcompare. order_cases. Qed.

Lemma SFleb_not_nan (u v : spec_float) :
  SFleb u v = true -> is_nan u = false /\ is_nan v = false.
Proof. unfold SFleb, SFcompare. float_cases; auto. Qed.

Lemma SFleb_refl (u : spec_float) : is_nan u = false -> SFleb u u = true.
Proof. unfold SFleb, SFcompare. order_cases. Qed.

Lemma SFleb_total (u v : spec_float) :
  is_nan u = false -> is_nan v = false ->
  SFltb v u = false -> SFleb u v = true.
Proof. unfold SFleb, SFltb, SFcompare. order_cases. Qed.

Lemma SFleb_false_gt (u v : spec_float) :
  is_nan u = false -> is_nan v = false ->
  SFleb u v = false -> SFltb v u = true.
Proof. unfold SFleb, SFltb, SFcompare. order_cases. Qed.

Lemma SFltb_leb (u v : spec_float) : SFltb u v = true -> SFleb u v = true.
Proof. unfold SFleb, SFltb. destruct (SFcompare u v) as [[]|]; auto. Qed.

End FloatOrder.

#[global] Instance angle_le_trans : Transitive angle_le.
Proof. intros p q r. unfold angle_le, F32.leb. apply SFleb_trans. Qed.

(** ** Counted loops *)

Lemma for_up_empty {S : Type} (lo hi : Z) (body : Z -> S -> S) (s : S) :
  hi <= lo -> for_up lo hi body s = s.
Proof.
  intros H. unfold for_up. replace (Z.to_nat (hi - lo)) with O by lia. done.
Qed.

Lemma for_up_first {S : Type} (lo hi : Z) (body : Z -> S -> S) (s : S) :
  lo < hi -> for_up lo hi body s = for_up (lo + 1) hi body (body lo s).
Proof.
  intros H. unfold for_up.
  replace (Z.to_nat (hi - lo)) with (Datatypes.S (Z.to_nat (hi - (lo + 1))))
    by lia.
  done.
Qed.

Lemma iter_up_last {S : Type} (n : nat) (i : Z) (body : Z -> S -> S) (s : S) :
  iter_up (Datatypes.S n) i body s
  = body (i + Z.of_nat n) (iter_up n i body s).
Proof.
  revert i s. induction n as [|n IH]; intros i s.
  - cbn. by rewrite Z.add_0_r.
  - change (iter_up (Datatypes.S (Datatypes.S n)) i body s)
      with (iter_up (Datatypes.S n) (i + 1) body (body i s)).
    rewrite IH. cbn [iter_up]. f_equal. lia.
Qed.

Lemma for_up_last {S : Type} (lo hi : Z) (body : Z -> S -> S) (s : S) :
  lo <= hi -> for_up lo (hi + 1) body s = body hi (for_up lo hi body s).
Proof.
  intros H. unfold for_up.
  replace (Z.to_nat (hi + 1 - lo)) with (Datatypes.S (Z.to_nat (hi - lo)))
    by lia.
  rewrite iter_up_last. f_equal. lia.
Qed.

Lemma for_down_empty {S : Type} (hi lo : Z) (body : Z -> S -> S) (s : S) :
  hi < lo -> for_down hi lo body s = s.
Proof.
  intros H. unfold for_down.
  replace (Z.to_nat (hi - lo + 1)) with O by lia. done.
Qed.

Lemma for_down_first {S : Type} (hi lo : Z) (body : Z -> S -> S) (s : S) :
  lo <= hi -> for_down hi lo body s = for_down (hi - 1) lo body (body hi s).
Proof.
  intros H. unfold for_down.
  replace (Z.to_nat (hi - lo + 1))
    with (Datatypes.S (Z.to_nat (hi - 1 - lo + 1))) by lia.
  done.
Qed.

(** An invariant [P i] that holds before the turn of index [i] holds, as
    [P hi], when the ascending loop ends. *)
Lemma for_up_invariant {S : Type} (P : Z -> S -> Prop) (lo hi : Z)
    (body : Z -> S -> S) (s : S) :
  lo <= hi -> P lo s ->
  (forall i t, lo <= i < hi -> P i t -> P (i + 1) (body i t)) ->
  P hi (for_up lo hi body s).
Proof.
  intros Hle H0 Hstep. unfold for_up.
  remember (Z.to_nat (hi - lo)) as n eqn:Hn.
  revert lo s Hle H0 Hstep Hn.
  induction n as [|n IH]; intros lo s Hle H0 Hstep Hn.
  - cbn. replace hi with lo by lia. done.
  - cbn. apply IH; [lia | apply Hstep; [lia | done] | | lia].
    intros i t Hi. apply Hstep. lia.
Qed.

(** The same for the descending loop: [P (lo - 1)] holds at the end. *)
Lemma for_down_invariant {S : Type} (P : Z -> S -> Prop) (hi lo : Z)
    (body : Z -> S -> S) (s : S) :
  lo - 1 <= hi -> P hi s ->
  (forall i t, lo <= i <= hi -> P i t -> P (i - 1) (body i t)) ->
  P (lo - 1) (for_down hi lo body s).
Proof.
  intros Hle H0 Hstep. unfold for_down.
  remember (Z.to_nat (hi - lo + 1)) as n eqn:Hn.
  revert hi s Hle H0 Hstep Hn.
  induction n as [|n IH]; intros hi s Hle H0 Hstep Hn.
  - cbn. replace (lo - 1) with hi by lia. done.
  - cbn. apply IH; [lia | apply Hstep; [lia | done] | | lia].
    intros i t Hi. apply Hstep. lia.
Qed.

(** ** Array accesses *)

Lemma load_lookup (nodes : list node_t) (i : Z) (v : node_t) :
  nodes !! Z.to_nat i = Some v -> load nodes i = v.
Proof. intros H. unfold load. by apply list_lookup_total_correct. Qed.

Lemma load_middle (A C : list node_t) (p : node_t) (i : Z) :
  i = Z.of_nat (length A) -> load (A ++ p :: C) i = p.
Proof.
  intros ->. apply load_lookup. rewrite Nat2Z.id. by apply list_lookup_middle.
Qed.

Lemma store_middle (A C : list node_t) (p v : node_t) (i : Z) :
  i = Z.of_nat (length A) -> store (A ++ p :: C) i v = A ++ v :: C.
Proof.
  intros ->. unfold store. rewrite Nat2Z.id.
  replace (length A) with (length A + 0)%nat by lia.
  by rewrite insert_app_r.
Qed.

Lemma length_store (nodes : list node_t) (i : Z) (v : node_t) :
  length (store nodes i v) = length nodes.
Proof. apply length_insert. Qed.

Lemma active_app (L R : list node_t) (n : Z) :
  n = Z.of_nat (length L) -> active (L ++ R) n = L.
Proof. intros ->. unfold active. rewrite Nat2Z.id. apply take_app_length. Qed.

Lemma removed_app (L R : list node_t) (n : Z) :
  n = Z.of_nat (length L) -> removed (L ++ R) n = R.
Proof. intros ->. unfold removed. rewrite Nat2Z.id. apply drop_app_length. Qed.

(** An array with [0 <= i < size <= length] splits around [i] and [size]. *)
Lemma split_active (nodes : list node_t) (i size : Z) :
  0 <= i < size -> size <= Z.of_nat (length nodes) ->
  exists A p B C,
    nodes = A ++ p :: B ++ C /\ i = Z.of_nat (length A)
    /\ size = Z.of_nat (length A + 1 + length B).
Proof.
  intros Hi Hs.
  destruct (lookup_lt_is_Some_2 nodes (Z.to_nat i)) as [p Hp]; [lia|].
  exists (take (Z.to_nat i) nodes), p,
    (take (Z.to_nat size - Datatypes.S (Z.to_nat i))
       (drop (Datatypes.S (Z.to_nat i)) nodes)),
    (drop (Z.to_nat size) nodes).
  split; [|split].
  - rewrite <- (take_drop_middle nodes (Z.to_nat i) p Hp) at 1.
    do 2 f_equal.
    rewrite <- (take_drop (Z.to_nat size - Datatypes.S (Z.to_nat i))
                 (drop (Datatypes.S (Z.to_nat i)) nodes)) at 1.
    f_equal. rewrite drop_drop. f_equal. lia.
  - rewrite length_take. lia.
  - rewrite !length_take, length_drop. lia.
Qed.

(** ** pop_node *)

(** The shifting loop followed by a store in the slot it leaves free. *)
Lemma shift_left_store (B A C : list node_t) (p v : node_t) :
  store
    (iter_up (length B) (Z.of_nat (length A))
       (fun i ns => store ns i (load ns (i + 1))) (A ++ p :: B ++ C))
    (Z.of_nat (length A + length B)) v
  = A ++ B ++ v :: C.
Proof.
  revert A p. induction B as [|q B IH]; intros A p.
  - cbn. apply store_middle. lia.
  - cbn [length iter_up].
    assert (load (A ++ p :: (q :: B) ++ C) (Z.of_nat (length A) + 1) = q)
      as ->.
    { change (A ++ p :: (q :: B) ++ C) with (A ++ [p] ++ q :: B ++ C).
      rewrite app_assoc. apply load_middle. rewrite length_app. cbn. lia. }
    rewrite store_middle by done.
    replace (A ++ q :: (q :: B) ++ C) with ((A ++ [q]) ++ q :: B ++ C)
      by (by rewrite <- app_assoc).
    specialize (IH (A ++ [q]) q).
    rewrite length_app in IH. cbn [length] in IH.
    replace (Z.of_nat (length A) + 1) with (Z.of_nat (length A + 1)) by lia.
    replace (length A + Datatypes.S (length B))%nat
      with (length A + 1 + length B)%nat by lia.
    rewrite IH. by rewrite <- app_assoc.
Qed.

Lemma pop_node_app (A B C : list node_t) (p : node_t) (node size : Z) :
  node = Z.of_nat (length A) ->
  size = Z.of_nat (length A + 1 + length B) ->
  pop_node node (A ++ p :: B ++ C) size
  = (A ++ B ++ p :: C, Z.of_nat (length A + length B)).
Proof.
  intros -> ->. unfold pop_node, for_up.
  rewrite load_middle by done.
  replace (Z.to_nat (Z.of_nat (length A + 1 + length B) - 1
                     - Z.of_nat (length A))) with (length B) by lia.
  replace (Z.of_nat (length A + 1 + length B) - 1)
    with (Z.of_nat (length A + length B)) by lia.
  by rewrite shift_left_store.
Qed.

Lemma pop_node_split (node size : Z) (nodes : list node_t) :
  0 <= node < size -> size <= Z.of_nat (length nodes) ->
  exists A p B C,
    nodes = A ++ [p] ++ B ++ C /\ node = Z.of_nat (length A)
    /\ size = Z.of_nat (length A + 1 + length B)
    /\ pop_node node nodes size = (A ++ B ++ [p] ++ C, size - 1).
Proof.
  intros Hn Hs.
  destruct (split_active nodes node size Hn Hs) as (A & p & B & C & -> & HA & HB).
  exists A, p, B, C. repeat split; try done.
  rewrite (pop_node_app A B C p node size HA HB). cbn. f_equal. lia.
Qed.

#[local] Ltac app_lookup :=
  repeat first
    [ rewrite lookup_total_app_l by (rewrite ?length_app; cbn [length]; lia)
    | rewrite lookup_total_app_r by (rewrite ?length_app; cbn [length]; lia) ].

(** C7: [pop_node(index, nodes, size)], for [0 <= index < size], shifts the
    points after [index] one slot to the left, puts the removed point in the
    last active slot [size - 1], decrements [size], keeps the remaining
    active points in their order ([delete] removes one element of a list)
    and leaves the slots from the old [size] on as they were. *)
Theorem pop_node_contract (index size : Z) (nodes : list node_t) :
  0 <= index < size -> size <= Z.of_nat (length nodes) ->
  exists nodes',
    pop_node index nodes size = (nodes', size - 1)
    /\ length nodes' = length nodes
    /\ (forall i, 0 <= i < index -> load nodes' i = load nodes i)
    /\ (forall i, index <= i < size - 1 -> load nodes' i = load nodes (i + 1))
    /\ load nodes' (size - 1) = load nodes index
    /\ (forall i, size <= i -> load nodes' i = load nodes i)
    /\ active nodes' (size - 1) = delete (Z.to_nat index) (active nodes size).
Proof.
  intros Hi Hs.
  destruct (pop_node_split index size nodes Hi Hs)
    as (A & p & B & C & -> & HA & HB & Hpop).
  eexists. split; [exact Hpop|].
  unfold load.
  split; [|split; [|split; [|split; [|split]]]].
  - rewrite !length_app. cbn. lia.
  - intros i Hlt. by app_lookup.
  - intros i Hlt. app_lookup. f_equal. cbn [length]. lia.
  - app_lookup. f_equal. cbn [length]. lia.
  - intros i Hlt. app_lookup. f_equal. cbn [length]. lia.
  - replace (A ++ B ++ [p] ++ C) with ((A ++ B) ++ [p] ++ C)
      by (by rewrite <- app_assoc).
    replace (A ++ [p] ++ B ++ C) with ((A ++ [p] ++ B) ++ C)
      by (by rewrite <- !app_assoc).
    rewrite !active_app by (rewrite !length_app; cbn [length]; lia).
    replace (Z.to_nat index) with (length A) by lia.
    apply eq_sym, delete_middle.
Qed.

(** ** Rearrangements *)

Lemma rearranged_refl (n : Z) (nodes : list node_t) : rearranged n nodes nodes.
Proof. by split. Qed.

Lemma rearranged_trans (n : Z) (l1 l2 l3 : list node_t) :
  rearranged n l1 l2 -> rearranged n l2 l3 -> rearranged n l1 l3.
Proof.
  intros [H1 H2 H3] [K1 K2 K3]. split.
  - by rewrite K1.
  - by rewrite K2.
  - by rewrite K3.
Qed.

(** A rearrangement of the first [n] slots is one of the first [n'], for
    [n <= n']. *)
Lemma rearranged_mono (n n' : Z) (nodes nodes' : list node_t) :
  n <= n' -> rearranged n nodes nodes' -> rearranged n' nodes nodes'.
Proof.
  intros Hle [H1 H2 H3]. unfold active, removed in *.
  assert (Z.to_nat n' = (Z.to_nat n + (Z.to_nat n' - Z.to_nat n))%nat) as E
    by lia.
  split; unfold active, removed; [done | rewrite E ..].
  - rewrite <- !take_take_drop. by rewrite H2, H3.
  - rewrite <- !drop_drop. by rewrite H3.
Qed.

Lemma rearranged_perm (n : Z) (nodes nodes' : list node_t) :
  rearranged n nodes nodes' -> nodes' ≡ₚ nodes.
Proof.
  intros [H1 H2 H3]. unfold active, removed in *.
  rewrite <- (take_drop (Z.to_nat n) nodes'), <- (take_drop (Z.to_nat n) nodes).
  by rewrite H2, H3.
Qed.

Lemma popped_from_refl (nodes : list node_t) (size : Z) :
  0 <= size -> popped_from nodes size nodes size.
Proof. intros H. split; [lia | apply rearranged_refl | done]. Qed.

Lemma popped_from_trans (l1 l2 l3 : list node_t) (s1 s2 s3 : Z) :
  popped_from l1 s1 l2 s2 -> popped_from l2 s2 l3 s3 ->
  popped_from l1 s1 l3 s3.
Proof.
  intros [H1 H2 H3] [K1 K2 K3]. split.
  - lia.
  - eapply rearranged_trans; [exact H2|].
    apply (rearranged_mono s2); [lia | done].
  - by etrans.
Qed.

Lemma pop_node_popped_from (node size : Z) (nodes : list node_t) :
  0 <= node < size -> size <= Z.of_nat (length nodes) ->
  popped_from nodes size (pop_node node nodes size).1 (size - 1)
  /\ (pop_node node nodes size).2 = size - 1.
Proof.
  intros Hn Hs.
  destruct (pop_node_split node size nodes Hn Hs)
    as (A & p & B & C & -> & HA & HB & ->).
  cbn [fst snd]. split; [|done]. split; [lia | split |].
  - rewrite !length_app. cbn. lia.
  - replace (A ++ B ++ [p] ++ C) with ((A ++ B ++ [p]) ++ C)
      by (by rewrite <- !app_assoc).
    replace (A ++ [p] ++ B ++ C) with ((A ++ [p] ++ B) ++ C)
      by (by rewrite <- !app_assoc).
    rewrite !active_app by (rewrite !length_app; cbn [length]; lia).
    apply Permutation_app_head, Permutation_app_comm.
  - replace (A ++ B ++ [p] ++ C) with ((A ++ B ++ [p]) ++ C)
      by (by rewrite <- !app_assoc).
    replace (A ++ [p] ++ B ++ C) with ((A ++ [p] ++ B) ++ C)
      by (by rewrite <- !app_assoc).
    by rewrite !removed_app by (rewrite !length_app; cbn [length]; lia).
  - replace (A ++ B ++ [p] ++ C) with ((A ++ B) ++ [p] ++ C)
      by (by rewrite <- !app_assoc).
    replace (A ++ [p] ++ B ++ C) with ((A ++ [p] ++ B) ++ C)
      by (by rewrite <- !app_assoc).
    rewrite !active_app by (rewrite !length_app; cbn [length]; lia).
    apply sublist_app; [done|]. by apply sublist_inserts_l.
Qed.

Lemma popped_from_length (l l' : list node_t) (s s' : Z) :
  popped_from l s l' s' -> length l' = length l.
Proof. intros [_ [H _ _] _]. done. Qed.

(** ** The phases of a trial only pop *)

(** The neighbour loop keeps [0 <= ref_index < size]: the reference node is
    never popped by it. *)
Lemma pick_neighbour_popped (deviation ref_angle : float) (i : Z)
    (nodes0 : list node_t) (size0 : Z) (nodes : list node_t)
    (size ref_index : Z) :
  popped_from nodes0 size0 nodes size ->
  size0 <= Z.of_nat (length nodes0) ->
  0 <= ref_index < size ->
  let '(nodes', size', ref_index') :=
    pick_neighbour deviation ref_angle i (nodes, size, ref_index) in
  popped_from nodes0 size0 nodes' size' /\ 0 <= ref_index' < size'.
Proof.
  intros Hp Hlen Href. unfold pick_neighbour.
  set (pick := if Z.rem i 2 =? 0 then _ else _).
  assert (0 <= pick < size) as Hpick.
  { subst pick. destruct (Z.rem i 2 =? 0); apply Z.rem_bound_pos; lia. }
  destruct (negb (pick =? ref_index) && _) eqn:Hc; [|done].
  apply andb_prop in Hc as [Hne _].
  apply negb_true_iff, Z.eqb_neq in Hne.
  assert (size <= Z.of_nat (length nodes)) as Hs.
  { rewrite (popped_from_length _ _ _ _ Hp). destruct Hp. lia. }
  destruct (pop_node_popped_from pick size nodes Hpick Hs) as [Hq Hsz].
  destruct (pop_node pick nodes size) as [nodes' size'].
  cbn [fst snd] in *. subst size'. split.
  - by eapply popped_from_trans.
  - destruct (Z.ltb_spec pick ref_index); lia.
Qed.

Lemma pop_sample_popped (self : Ransac) (r : Z) (nodes : list node_t)
    (size : Z) :
  0 <= r -> 0 < size <= Z.of_nat (length nodes) ->
  let '(nodes', size', ref_index') := pop_sample self r nodes size in
  popped_from nodes size nodes' size' /\ size' < size.
Proof.
  intros Hr Hs. unfold pop_sample.
  set (body := pick_neighbour _ _).
  assert (let '(nodes', size', ref_index') :=
            for_up 0 (sample_size self) body (nodes, size, Z.rem r size) in
          popped_from nodes size nodes' size' /\ 0 <= ref_index' < size')
    as Hloop.
  { destruct (Z.le_gt_cases 0 (sample_size self)) as [Hn|Hn].
    - apply (for_up_invariant
               (fun _ '(nodes', size', ref_index') =>
                  popped_from nodes size nodes' size'
                  /\ 0 <= ref_index' < size')); [done | |].
      + split; [apply popped_from_refl; lia |].
        apply Z.rem_bound_pos; lia.
      + intros i [[nodes' size'] ref'] _ [Hp Href].
        apply pick_neighbour_popped; [done | lia | done].
    - rewrite for_up_empty by lia. split; [apply popped_from_refl; lia |].
      apply Z.rem_bound_pos; lia. }
  destruct (for_up 0 (sample_size self) body (nodes, size, Z.rem r size))
    as [[nodes1 size1] ref1].
  destruct Hloop as [Hp Href].
  assert (size1 <= Z.of_nat (length nodes1)) as Hs1.
  { rewrite (popped_from_length _ _ _ _ Hp). destruct Hp. lia. }
  destruct (pop_node_popped_from ref1 size1 nodes1 Href Hs1) as [Hq Hsz].
  destruct (pop_node ref1 nodes1 size1) as [nodes' size'].
  cbn [fst snd] in *. subst size'. split.
  - by eapply popped_from_trans.
  - destruct Hp. lia.
Qed.

Lemma associate_node_popped (self : Ransac) (line : line_t) (i : Z)
    (nodes : list node_t) (size : Z) :
  0 <= i < size -> size <= Z.of_nat (length nodes) ->
  let '(nodes', size') := associate_node self line i (nodes, size) in
  popped_from nodes size nodes' size' /\ i <= size'.
Proof.
  intros Hi Hs. unfold associate_node.
  destruct (F32.leb _ _).
  - destruct (pop_node_popped_from i size nodes Hi Hs) as [Hq Hsz].
    destruct (pop_node i nodes size) as [nodes' size'].
    cbn [fst snd] in *. subst size'. split; [done | lia].
  - split; [apply popped_from_refl; lia | lia].
Qed.

Lemma associate_popped (self : Ransac) (line : line_t) (nodes : list node_t)
    (size : Z) :
  0 <= size <= Z.of_nat (length nodes) ->
  let '(nodes', size') := associate self line nodes size in
  popped_from nodes size nodes' size'.
Proof.
  intros Hs. unfold associate.
  pose proof (for_down_invariant
                (fun i '(nodes', size') =>
                   popped_from nodes size nodes' size' /\ i < size')
                (size - 1) 0 (associate_node self line) (nodes, size))
    as Hinv.
  destruct (for_down _ _ _ _) as [nodes' size'].
  apply Hinv.
  - lia.
  - split; [apply popped_from_refl; lia | lia].
  - intros i [nodes1 size1] Hi [Hp Hlt].
    assert (size1 <= Z.of_nat (length nodes1)) as Hs1.
    { rewrite (popped_from_length _ _ _ _ Hp). destruct Hp. lia. }
    pose proof (associate_node_popped self line i nodes1 size1
                  ltac:(lia) Hs1) as Hstep.
    destruct (associate_node self line i (nodes1, size1)) as [nodes2 size2].
    destruct Hstep as [Hq Hle]. split; [|lia].
    by eapply popped_from_trans.
Qed.

(** ** restore_trial *)

Lemma load_store (nodes : list node_t) (i j : Z) (v : node_t) :
  0 <= i < Z.of_nat (length nodes) -> 0 <= j ->
  load (store nodes i v) j = if j =? i then v else load nodes j.
Proof.
  intros Hi Hj. unfold load, store.
  destruct (Z.eqb_spec j i) as [->|Hne].
  - apply list_lookup_total_insert_eq. lia.
  - apply list_lookup_total_insert_ne. lia.
Qed.

Lemma lookup_load (nodes : list node_t) (i : Z) :
  0 <= i < Z.of_nat (length nodes) ->
  nodes !! Z.to_nat i = Some (load nodes i).
Proof. intros Hi. apply list_lookup_lookup_total_lt. lia. Qed.

Lemma active_load (P : node_t -> Prop) (nodes : list node_t) (n j : Z) :
  Forall P (active nodes n) -> n <= Z.of_nat (length nodes) ->
  0 <= j < n -> P (load nodes j).
Proof.
  intros HP Hn Hj. apply (Forall_lookup_1 _ _ (Z.to_nat j) _ HP).
  unfold active. rewrite lookup_take_lt by lia. apply lookup_load. lia.
Qed.

Lemma select_largest_bounds (nodes : list node_t) (i : Z) :
  0 <= i -> 0 <= select_largest nodes i <= i.
Proof.
  intros Hi. unfold select_largest.
  enough (0 <= for_up 1 (i + 1)
                 (fun j select =>
                    if F32.gtb (angle (load nodes j))
                               (angle (load nodes select))
                    then j else select) 0 < i + 1) by lia.
  apply (for_up_invariant (fun k sel => 0 <= sel < k)); [lia | lia |].
  intros j sel Hj Hsel. destruct (F32.gtb _ _); lia.
Qed.

(** On angles that are not NaN, the selected node has the largest angle of
    [[0, i]]. *)
Lemma select_largest_max (nodes : list node_t) (i : Z) :
  0 <= i ->
  (forall j, 0 <= j <= i -> angle_ordered (load nodes j)) ->
  forall j, 0 <= j <= i ->
    angle_le (load nodes j) (load nodes (select_largest nodes i)).
Proof.
  intros Hi Hord. unfold select_largest.
  enough (let sel := for_up 1 (i + 1)
                 (fun j select =>
                    if F32.gtb (angle (load nodes j))
                               (angle (load nodes select))
                    then j else select) 0 in
          0 <= sel < i + 1
          /\ forall j, 0 <= j < i + 1 ->
               angle_le (load nodes j) (load nodes sel)) as [_ H].
  { intros j Hj. apply H. lia. }
  apply (for_up_invariant
           (fun k sel =>
              0 <= sel < k
              /\ forall j, 0 <= j < k ->
                   angle_le (load nodes j) (load nodes sel))); [lia | |].
  - split; [lia|]. intros j Hj. replace j with 0 by lia.
    apply SFleb_refl, Hord. lia.
  - intros k sel Hk [Hsel Hmax].
    destruct (F32.gtb _ _) eqn:Hgt; (split; [lia|]); intros j Hj.
    + destruct (Z.eq_dec j k) as [->|Hne].
      * apply SFleb_refl, Hord. lia.
      * etrans; [apply Hmax; lia|]. by apply SFltb_leb.
    + destruct (Z.eq_dec j k) as [->|Hne]; [|apply Hmax; lia].
      apply SFleb_total; [apply Hord; lia | apply Hord; lia | exact Hgt].
Qed.

Lemma swap_with_high_load (nodes : list node_t) (i p : Z) :
  0 <= i < Z.of_nat (length nodes) -> 0 <= p ->
  load (swap_with_high i nodes) p
  = if p =? select_largest nodes i then load nodes i
    else if p =? i then load nodes (select_largest nodes i)
    else load nodes p.
Proof.
  intros Hi Hp. unfold swap_with_high.
  pose proof (select_largest_bounds nodes i ltac:(lia)) as Hs.
  rewrite load_store by (rewrite ?length_store; lia).
  by rewrite load_store by lia.
Qed.

Lemma swap_with_high_rearranged (nodes : list node_t) (i n : Z) :
  0 <= i < n -> n <= Z.of_nat (length nodes) ->
  rearranged n nodes (swap_with_high i nodes).
Proof.
  intros Hi Hn. unfold swap_with_high.
  pose proof (select_largest_bounds nodes i ltac:(lia)) as Hs.
  set (s := select_largest nodes i) in *.
  split; unfold active, removed, store.
  - by rewrite !length_insert.
  - rewrite !take_insert_lt by lia.
    apply Permutation_insert_swap;
      (rewrite lookup_take_lt by lia; apply lookup_load; lia).
  - by rewrite !drop_insert_lt by lia.
Qed.

(** The sorting loop rearranges the first [original_size] slots. *)
Lemma restore_trial_rearranged (nodes : list node_t)
    (ref_index original_size size : Z) :
  original_size <= Z.of_nat (length nodes) ->
  rearranged original_size nodes
    (restore_trial nodes ref_index original_size size).1.
Proof.
  intros Hn. unfold restore_trial. cbn [fst].
  destruct (Z.le_gt_cases 1 original_size) as [Hge|Hlt].
  - apply (for_down_invariant
             (fun _ ns => rearranged original_size nodes ns)
             (original_size - 1) 1); [lia | apply rearranged_refl |].
    intros i ns Hi Hre. eapply rearranged_trans; [exact Hre|].
    apply swap_with_high_rearranged; [lia|].
    rewrite (re_length _ _ _ Hre). lia.
  - rewrite for_down_empty by lia. apply rearranged_refl.
Qed.

Lemma strongly_sorted_lookup {A : Type} (R : relation A) (l : list A) :
  (forall i j u v, (i < j)%nat -> l !! i = Some u -> l !! j = Some v -> R u v) ->
  StronglySorted R l.
Proof.
  induction l as [|a l IH]; intros H; constructor.
  - apply IH. intros i j u v Hij Hi Hj.
    apply (H (Datatypes.S i) (Datatypes.S j)); [lia | done | done].
  - apply Forall_lookup_2. intros j v Hj.
    apply (H O (Datatypes.S j)); [lia | done | done].
Qed.

Lemma strongly_sorted_loads (nodes : list node_t) (n : Z) :
  (forall p q, 0 <= p < q -> q < n ->
     angle_le (load nodes p) (load nodes q)) ->
  StronglySorted angle_le (active nodes n).
Proof.
  intros H. apply strongly_sorted_lookup. intros i j u v Hij Hi Hj.
  unfold active in *.
  apply lookup_take_Some in Hi as [Hi Hin], Hj as [Hj Hjn].
  specialize (H (Z.of_nat i) (Z.of_nat j) ltac:(lia) ltac:(lia)).
  unfold load in H. rewrite !Nat2Z.id in H.
  by rewrite (list_lookup_total_correct _ _ _ Hi),
    (list_lookup_total_correct _ _ _ Hj) in H.
Qed.

(** On angles that are not NaN, the sorting loop leaves the first
    [original_size] slots in ascending order of angle. *)
Lemma restore_trial_sorted (nodes : list node_t)
    (ref_index original_size size : Z) :
  original_size <= Z.of_nat (length nodes) ->
  Forall angle_ordered (active nodes original_size) ->
  StronglySorted angle_le
    (active (restore_trial nodes ref_index original_size size).1
       original_size).
Proof.
  intros Hn Hord. unfold restore_trial. cbn [fst].
  set (n := original_size) in *.
  destruct (Z.le_gt_cases 1 n) as [Hge|Hlt].
  - pose proof (for_down_invariant
             (fun k ns =>
                rearranged n nodes ns
                /\ forall p q, 0 <= p <= q -> k < q < n ->
                     angle_le (load ns p) (load ns q))
             (n - 1) 1 swap_with_high nodes) as Hinv.
    destruct Hinv as [Hre Hsorted]; [lia | | |].
    + split; [apply rearranged_refl | intros; lia].
    + intros i ns Hi [Hre Hsorted].
      assert (n <= Z.of_nat (length ns)) as Hlen
        by (rewrite (re_length _ _ _ Hre); lia).
      assert (forall j, 0 <= j < n -> angle_ordered (load ns j)) as Hord'.
      { intros j Hj. apply (active_load _ ns n); [|done..].
        by rewrite (re_active _ _ _ Hre). }
      pose proof (select_largest_bounds ns i ltac:(lia)) as Hs.
      pose proof (select_largest_max ns i ltac:(lia)
                    ltac:(intros; apply Hord'; lia)) as Hmax.
      split.
      * eapply rearranged_trans; [exact Hre|].
        apply swap_with_high_rearranged; lia.
      * intros p q Hpq Hq.
        rewrite !swap_with_high_load by lia.
        set (s := select_largest ns i) in *.
        destruct (Z.eqb_spec q s) as [Eqs|Nqs];
          destruct (Z.eqb_spec q i) as [Eqi|Nqi];
          destruct (Z.eqb_spec p s) as [Eps|Nps];
          destruct (Z.eqb_spec p i) as [Epi|Npi];
          try (assert (s = i) as Es by lia; rewrite ?Es in * );
          try (apply Hmax; lia); try (apply Hsorted; lia);
          try (apply SFleb_refl, Hord'; lia); lia.
    + apply strongly_sorted_loads. intros p q Hp Hq. apply Hsorted; lia.
  - rewrite for_down_empty by lia.
    apply strongly_sorted_loads. intros; lia.
Qed.

(** Sortedness is inherited by sublists, and a sorted list of two or more
    angles holds no NaN. *)
Lemma strongly_sorted_sublist {A : Type} (R : relation A) (l k : list A) :
  l `sublist_of` k -> StronglySorted R k -> StronglySorted R l.
Proof.
  induction 1 as [|a l k Hsub IH|a l k Hsub IH]; intros Hk.
  - constructor.
  - apply StronglySorted_inv in Hk as [Hk Ha]. constructor; [by apply IH|].
    apply Forall_forall. intros v Hv.
    apply (proj1 (Forall_forall _ _) Ha). by eapply elem_of_sublist.
  - apply StronglySorted_inv in Hk as [Hk _]. by apply IH.
Qed.

Lemma sorted_angles_ordered (l : list node_t) :
  Sorted angle_le l -> Forall angle_ordered l \/ (length l <= 1)%nat.
Proof.
  intros Hs. apply Sorted_StronglySorted in Hs; [|apply angle_le_trans].
  destruct l as [|p [|q l]]; [right; cbn; lia | right; cbn; lia | left].
  apply StronglySorted_inv in Hs as [Hs Hp].
  constructor.
  - apply Forall_inv in Hp. by apply SFleb_not_nan in Hp as [? _].
  - eapply Forall_impl; [exact Hp|].
    intros v Hv. by apply SFleb_not_nan in Hv as [_ ?].
Qed.

Lemma restore_trial_sorted_short (nodes : list node_t)
    (ref_index original_size size : Z) :
  original_size <= Z.of_nat (length nodes) ->
  Forall angle_ordered (active nodes original_size)
  \/ (length (active nodes original_size) <= 1)%nat ->
  sorted_by_angle (restore_trial nodes ref_index original_size size).1
    original_size.
Proof.
  intros Hn [Hord|Hshort]; apply StronglySorted_Sorted.
  - by apply restore_trial_sorted.
  - assert (original_size <= 1) as Hle.
    { unfold active in Hshort. rewrite length_take in Hshort. lia. }
    unfold restore_trial. cbn [fst]. rewrite for_down_empty by lia.
    apply strongly_sorted_loads. intros; lia.
Qed.

(** The hypothesis on NaN cannot be dropped: on the angles 2, NaN, 1 the
    loop ends with NaN, 1, 2, and [NaN <= 1] is false. *)
Remark restore_trial_nan_angle :
  map angle (restore_trial Sample.nan_scan 0 3 0).1
  = [S754_nan; F32.of_int 1; F32.of_int 2]
  /\ ~ sorted_by_angle (restore_trial Sample.nan_scan 0 3 0).1 3.
Proof.
  split; [by vm_compute|]. intros H.
  apply Sorted_inv in H as [_ H]. apply HdRel_inv in H.
  vm_compute in H. discriminate.
Qed.

(** ** compute_reg_line: status and line *)

(** The status does not depend on the line passed by reference, and on
    success neither does the line. *)
Lemma compute_reg_line_status (start end_ : Z) (nodes : list node_t)
    (l1 l2 : line_t) :
  (compute_reg_line start end_ nodes l1).1
  = (compute_reg_line start end_ nodes l2).1.
Proof.
  unfold compute_reg_line.
  destruct (end_ - start =? 0); [done|].
  destruct (F64.eqb (m_denom _ _) _); [done|].
  cbn [m b]. destruct (F64.eqb (b_denom _ _) _); done.
Qed.

Lemma compute_reg_line_success (start end_ : Z) (nodes : list node_t)
    (l1 l2 : line_t) :
  (compute_reg_line start end_ nodes l1).1 = 0 ->
  compute_reg_line start end_ nodes l1 = compute_reg_line start end_ nodes l2.
Proof.
  unfold compute_reg_line.
  destruct (end_ - start =? 0); [done|].
  destruct (F64.eqb (m_denom _ _) _); [done|].
  cbn [m b]. destruct (F64.eqb (b_denom _ _) _); done.
Qed.

Lemma compute_reg_line_codes (start end_ : Z) (nodes : list node_t)
    (line : line_t) :
  (compute_reg_line start end_ nodes line).1 = 0
  \/ (compute_reg_line start end_ nodes line).1 = -1.
Proof.
  unfold compute_reg_line.
  destruct (end_ - start =? 0); [by right|].
  destruct (F64.eqb (m_denom _ _) _); [by right|].
  cbn [m b]. destruct (F64.eqb (b_denom _ _) _); [by right | by left].
Qed.

(** ** One trial *)

Lemma run_trial_popped (self : Ransac) (line : line_t) (r : Z)
    (nodes : list node_t) (size : Z) :
  0 <= r -> 0 < size <= Z.of_nat (length nodes) ->
  popped_from nodes size (tr_nodes (run_trial self line r nodes size))
    (tr_size (run_trial self line r nodes size))
  /\ tr_size (run_trial self line r nodes size) < size.
Proof.
  intros Hr Hs. unfold run_trial.
  pose proof (pop_sample_popped self r nodes size Hr Hs) as Hp.
  destruct (pop_sample self r nodes size) as [[nodes1 size1] ref1].
  destruct Hp as [Hp Hlt].
  destruct (seed_fit size nodes1 size1 line) as [seed_status line1].
  assert (0 <= size1 <= Z.of_nat (length nodes1)) as Hs1.
  { rewrite (popped_from_length _ _ _ _ Hp). destruct Hp. lia. }
  pose proof (associate_popped self line1 nodes1 size1 Hs1) as Ha.
  destruct (seed_status =? 0).
  - destruct (associate self line1 nodes1 size1) as [nodes2 size2].
    destruct (_ && _);
      try match goal with
          | |- context [compute_reg_line ?a ?b ?c ?d] =>
              destruct (compute_reg_line a b c d)
          end;
      cbn; (split; [by eapply popped_from_trans | destruct Ha; lia]).
  - rewrite andb_false_r. cbn. done.
Qed.

Lemma trial_accepted (self : Ransac) (rand : nat -> N) (line : line_t)
    (st : loop_state) :
  let t := run_trial self line (Z.of_N (rand (ls_rand_calls st)))
             (ls_nodes st) (ls_size st) in
  tr_line_status t = 0 ->
  trial self rand line st
  = {| ls_nodes := tr_nodes t;
       ls_size := tr_size t;
       ls_trial_count := ls_trial_count st + 1;
       ls_lines := ls_lines st ++ [tr_line t];
       ls_rand_calls := Datatypes.S (ls_rand_calls st) |}.
Proof. intros t Ht. unfold trial. fold t. by rewrite Ht. Qed.

Lemma trial_failed (self : Ransac) (rand : nat -> N) (line : line_t)
    (st : loop_state) :
  let t := run_trial self line (Z.of_N (rand (ls_rand_calls st)))
             (ls_nodes st) (ls_size st) in
  tr_line_status t <> 0 ->
  trial self rand line st
  = {| ls_nodes :=
         (restore_trial (tr_nodes t) (tr_ref_index t) (ls_size st)
            (tr_size t)).1;
       ls_size := ls_size st;
       ls_trial_count := ls_trial_count st + 1;
       ls_lines := ls_lines st;
       ls_rand_calls := Datatypes.S (ls_rand_calls st) |}.
Proof.
  intros t Ht. unfold trial. fold t.
  apply Z.eqb_neq in Ht. by rewrite Ht.
Qed.

(** The local [line] of a trial is read only after a successful fit has
    written it: its initial value has no effect. *)
Lemma seed_fit_line_irrelevant (original_trial_size size : Z)
    (nodes : list node_t) (l1 l2 : line_t) :
  (seed_fit original_trial_size nodes size l1).1
  = (seed_fit original_trial_size nodes size l2).1
  /\ ((seed_fit original_trial_size nodes size l1).1 = 0 ->
      seed_fit original_trial_size nodes size l1
      = seed_fit original_trial_size nodes size l2).
Proof.
  unfold seed_fit. destruct (2 <=? _).
  - split; [apply compute_reg_line_status | apply compute_reg_line_success].
  - cbn. split; [done | lia].
Qed.

Lemma trial_line_irrelevant (self : Ransac) (rand : nat -> N)
    (l1 l2 : line_t) (st : loop_state) :
  trial self rand l1 st = trial self rand l2 st.
Proof.
  unfold trial, run_trial.
  destruct (pop_sample _ _ _ _) as [[nodes1 size1] ref1].
  pose proof (seed_fit_line_irrelevant (ls_size st) size1 nodes1 l1 l2)
    as [Hs Heq].
  destruct (seed_fit (ls_size st) nodes1 size1 l1) as [status1 line1].
  destruct (seed_fit (ls_size st) nodes1 size1 l2) as [status2 line2].
  cbn [fst] in Hs, Heq. subst status2.
  destruct (Z.eqb_spec status1 0) as [->|Hne].
  - by injection (Heq eq_refl) as ->.
  - by rewrite !andb_false_r.
Qed.

(** A trial rearranges the active range and never enlarges it. *)
Lemma trial_rearranged (self : Ransac) (rand : nat -> N) (line : line_t)
    (st : loop_state) :
  0 < ls_size st <= Z.of_nat (length (ls_nodes st)) ->
  rearranged (ls_size st) (ls_nodes st) (ls_nodes (trial self rand line st))
  /\ 0 <= ls_size (trial self rand line st) <= ls_size st.
Proof.
  intros Hs.
  pose proof (run_trial_popped self line (Z.of_N (rand (ls_rand_calls st)))
                (ls_nodes st) (ls_size st) ltac:(lia) Hs) as [Hp Hlt].
  set (t := run_trial _ _ _ _ _) in *.
  destruct (Z.eq_dec (tr_line_status t) 0) as [H0|H0].
  - rewrite (trial_accepted self rand line st H0).
    cbn [ls_nodes ls_size]. fold t.
    split; [apply Hp | destruct Hp; lia].
  - rewrite (trial_failed self rand line st H0).
    cbn [ls_nodes ls_size]. fold t.
    split; [|lia].
    eapply rearranged_trans; [apply Hp|].
    apply restore_trial_rearranged.
    rewrite (popped_from_length _ _ _ _ Hp). lia.
Qed.

(** A trial started on a sorted active range ends on a sorted one. *)
Lemma trial_sorted (self : Ransac) (rand : nat -> N) (line : line_t)
    (st : loop_state) :
  0 < ls_size st <= Z.of_nat (length (ls_nodes st)) ->
  sorted_by_angle (ls_nodes st) (ls_size st) ->
  sorted_by_angle (ls_nodes (trial self rand line st))
    (ls_size (trial self rand line st)).
Proof.
  intros Hs Hsorted.
  pose proof (run_trial_popped self line (Z.of_N (rand (ls_rand_calls st)))
                (ls_nodes st) (ls_size st) ltac:(lia) Hs) as [Hp Hlt].
  set (t := run_trial _ _ _ _ _) in *.
  destruct (Z.eq_dec (tr_line_status t) 0) as [H0|H0].
  - rewrite (trial_accepted self rand line st H0).
    cbn [ls_nodes ls_size]. fold t.
    apply StronglySorted_Sorted.
    eapply strongly_sorted_sublist; [apply Hp|].
    apply Sorted_StronglySorted; [apply angle_le_trans | exact Hsorted].
  - rewrite (trial_failed self rand line st H0).
    cbn [ls_nodes ls_size]. fold t.
    apply restore_trial_sorted_short.
    + rewrite (popped_from_length _ _ _ _ Hp). lia.
    + pose proof (re_active _ _ _ (pf_rearranged _ _ _ _ Hp)) as Hperm.
      destruct (sorted_angles_ordered _ Hsorted) as [Hord|Hshort].
      * left. by rewrite Hperm.
      * right. by rewrite Hperm.
Qed.

(** ** The loop *)

(** What every state at the start of a trial satisfies, for a call
    [compute(nodes, size)]. *)
Lemma reachable_rearranged (self : Ransac) (rand : nat -> N) (line : line_t)
    (nodes : list node_t) (size : Z) (st : loop_state) :
  size <= Z.of_nat (length nodes) ->
  rtc (trial_step self rand line) (initial_state nodes size) st ->
  rearranged size nodes (ls_nodes st) /\ ls_size st <= size.
Proof.
  intros Hs Hrtc. revert st Hrtc.
  apply (rtc_ind_r (fun st => rearranged size nodes (ls_nodes st)
                              /\ ls_size st <= size)).
  - cbn. split; [apply rearranged_refl | lia].
  - intros st st' Hrtc [Hg ->] [Hre Hle].
    apply andb_prop in Hg as [Hpos _]. apply Z.ltb_lt in Hpos.
    destruct (trial_rearranged self rand line st) as [Hre' Hle'].
    { rewrite (re_length _ _ _ Hre). lia. }
    split; [|lia].
    eapply rearranged_trans; [exact Hre|].
    by apply (rearranged_mono (ls_size st)).
Qed.

Lemma reachable_sorted (self : Ransac) (rand : nat -> N) (line : line_t)
    (nodes : list node_t) (size : Z) (st : loop_state) :
  size <= Z.of_nat (length nodes) ->
  sorted_by_angle nodes size ->
  rtc (trial_step self rand line) (initial_state nodes size) st ->
  sorted_by_angle (ls_nodes st) (ls_size st).
Proof.
  intros Hs Hsorted Hrtc. revert st Hrtc.
  apply (rtc_ind_r (fun st => sorted_by_angle (ls_nodes st) (ls_size st)));
    [done|].
  intros st st' Hrtc Hstep IH.
  destruct (reachable_rearranged self rand line nodes size st Hs Hrtc)
    as [Hre Hle].
  destruct Hstep as [Hg ->].
  apply andb_prop in Hg as [Hpos _]. apply Z.ltb_lt in Hpos.
  apply trial_sorted; [|done].
  rewrite (re_length _ _ _ Hre). lia.
Qed.

(** The loop stops on a state it reaches by trials, where its guard
    fails. *)
Lemma while_trials_reaches (self : Ransac) (rand : nat -> N) (line : line_t)
    (fuel : nat) (st st' : loop_state) :
  while_trials self rand line fuel st = Some st' ->
  rtc (trial_step self rand line) st st' /\ loop_guard self st' = false.
Proof.
  revert st. induction fuel as [|fuel IH]; intros st; cbn;
    destruct (loop_guard self st) eqn:Hg; try discriminate.
  - intros [= <-]. done.
  - intros H. apply IH in H as [Hrtc Hg']. split; [|done].
    eapply rtc_l; [|exact Hrtc]. done.
  - intros [= <-]. done.
Qed.

(** [max_trials - trial_count] turns of fuel are enough. *)
Lemma while_trials_terminates (self : Ransac) (rand : nat -> N)
    (line : line_t) (fuel : nat) (st : loop_state) :
  (Z.to_nat (max_trials self - ls_trial_count st) <= fuel)%nat ->
  exists st', while_trials self rand line fuel st = Some st'.
Proof.
  revert st. induction fuel as [|fuel IH]; intros st Hfuel; cbn;
    destruct (loop_guard self st) eqn:Hg; eauto.
  - apply andb_prop in Hg as [_ Hlt]. apply Z.ltb_lt in Hlt. lia.
  - apply IH. apply andb_prop in Hg as [_ Hlt]. apply Z.ltb_lt in Hlt.
    unfold trial. destruct (if negb _ then _ else _). cbn. lia.
Qed.

Lemma while_trials_more_fuel (self : Ransac) (rand : nat -> N)
    (line : line_t) (fuel fuel' : nat) (st st' : loop_state) :
  while_trials self rand line fuel st = Some st' -> (fuel <= fuel')%nat ->
  while_trials self rand line fuel' st = Some st'.
Proof.
  revert fuel' st. induction fuel as [|fuel IH]; intros fuel' st; cbn;
    destruct (loop_guard self st) eqn:Hg; try discriminate;
    intros H Hle; destruct fuel'; cbn; rewrite Hg; try done; try lia.
  apply IH; [done | lia].
Qed.

Lemma trial_counts (self : Ransac) (rand : nat -> N) (line : line_t)
    (st : loop_state) :
  ls_trial_count (trial self rand line st) = ls_trial_count st + 1
  /\ ls_rand_calls (trial self rand line st)
     = Datatypes.S (ls_rand_calls st).
Proof. unfold trial. destruct (if negb _ then _ else _). done. Qed.

Lemma reachable_counts (self : Ransac) (rand : nat -> N) (line : line_t)
    (nodes : list node_t) (size : Z) (st : loop_state) :
  rtc (trial_step self rand line) (initial_state nodes size) st ->
  ls_trial_count st = Z.of_nat (ls_rand_calls st)
  /\ 0 <= ls_trial_count st <= Z.max 0 (max_trials self).
Proof.
  intros Hrtc. revert st Hrtc.
  apply (rtc_ind_r (fun st => ls_trial_count st = Z.of_nat (ls_rand_calls st)
                              /\ 0 <= ls_trial_count st
                                 <= Z.max 0 (max_trials self))).
  - cbn. lia.
  - intros st st' Hrtc [Hg ->] IH.
    destruct (trial_counts self rand line st) as [-> ->].
    apply andb_prop in Hg as [_ Hlt]. apply Z.ltb_lt in Hlt. lia.
Qed.

(** * The claims *)

(** C1: for a call [compute(nodes, size)] on an array of at least [size]
    points, the first [size] points are the same multiset after the call as
    before it, and after every trial whatever its outcome (every state the
    loop reaches); [pop_node] and [restore_trial] only permute the array.
    The call returns, and the slots from [size] on are untouched. *)
Theorem compute_keeps_points (self : Ransac) (rand : nat -> N) (line : line_t)
    (nodes : list node_t) (size : Z) :
  size <= Z.of_nat (length nodes) ->
  (forall index ns s,
     0 <= index < s -> s <= Z.of_nat (length ns) ->
     (pop_node index ns s).1 ≡ₚ ns)
  /\ (forall ns ref_index original_size s,
        original_size <= Z.of_nat (length ns) ->
        (restore_trial ns ref_index original_size s).1 ≡ₚ ns)
  /\ (forall st,
        rtc (trial_step self rand line) (initial_state nodes size) st ->
        active (ls_nodes st) size ≡ₚ active nodes size
        /\ removed (ls_nodes st) size = removed nodes size)
  /\ (exists self' nodes',
        compute self rand line (Z.to_nat (max_trials self)) nodes size
        = Some (self', nodes'))
  /\ (forall fuel self' nodes',
        compute self rand line fuel nodes size = Some (self', nodes') ->
        active nodes' size ≡ₚ active nodes size
        /\ removed nodes' size = removed nodes size
        /\ nodes' ≡ₚ nodes).
Proof.
  intros Hs. split; [|split; [|split; [|split]]].
  - intros index ns s Hi Hlen.
    destruct (pop_node_popped_from index s ns Hi Hlen) as [[_ Hre _] _].
    by apply (rearranged_perm s).
  - intros ns ref_index original_size s Hlen.
    apply (rearranged_perm original_size).
    by apply restore_trial_rearranged.
  - intros st Hrtc.
    destruct (reachable_rearranged self rand line nodes size st Hs Hrtc)
      as [[_ Hperm Hrem] _].
    done.
  - unfold compute.
    destruct (while_trials_terminates self rand line
                (Z.to_nat (max_trials self)) (initial_state nodes size))
      as [st ->]; [cbn; lia | eauto].
  - intros fuel self' nodes'. unfold compute.
    destruct (while_trials _ _ _ _ _) as [st|] eqn:Hw; [|done].
    intros [= <- <-].
    apply while_trials_reaches in Hw as [Hrtc _].
    destruct (reachable_rearranged self rand line nodes size st Hs Hrtc)
      as [Hre _].
    split; [apply Hre | split; [apply Hre | by apply (rearranged_perm size)]].
Qed.

(** C2: when a trial fails, [restore_trial] is run, and after it the range
    [[0, original_trial_size)] is a permutation of its contents at the
    start of the trial, is sorted ascending by angle, and [size] is again
    [original_trial_size].  The trial starts from an active range that is
    sorted, as [compute] assumes of its input, or more generally from one
    that holds no NaN angle. *)
Theorem failed_trial_restores (self : Ransac) (rand : nat -> N)
    (line : line_t) (st : loop_state) :
  0 < ls_size st <= Z.of_nat (length (ls_nodes st)) ->
  sorted_by_angle (ls_nodes st) (ls_size st)
  \/ Forall angle_ordered (active (ls_nodes st) (ls_size st)) ->
  let t := run_trial self line (Z.of_N (rand (ls_rand_calls st)))
             (ls_nodes st) (ls_size st) in
  let st' := trial self rand line st in
  tr_line_status t <> 0 ->
  (ls_nodes st', ls_size st')
  = restore_trial (tr_nodes t) (tr_ref_index t) (ls_size st) (tr_size t)
  /\ ls_size st' = ls_size st
  /\ active (ls_nodes st') (ls_size st) ≡ₚ active (ls_nodes st) (ls_size st)
  /\ removed (ls_nodes st') (ls_size st) = removed (ls_nodes st) (ls_size st)
  /\ sorted_by_angle (ls_nodes st') (ls_size st).
Proof.
  intros Hs Hpre t st' Hfail. subst st'.
  pose proof (run_trial_popped self line (Z.of_N (rand (ls_rand_calls st)))
                (ls_nodes st) (ls_size st) ltac:(lia) Hs) as [Hp Hlt].
  fold t in Hp, Hlt.
  destruct (trial_rearranged self rand line st Hs) as [[_ Hperm Hrem] _].
  rewrite (trial_failed self rand line st Hfail) in *.
  cbn [ls_nodes ls_size] in *. fold t in Hperm, Hrem |- *.
  split; [done | split; [done | split; [done | split; [done|]]]].
  apply restore_trial_sorted_short.
  - rewrite (popped_from_length _ _ _ _ Hp). lia.
  - pose proof (re_active _ _ _ (pf_rearranged _ _ _ _ Hp)) as Hq.
    assert (Forall angle_ordered (active (ls_nodes st) (ls_size st))
            \/ (length (active (ls_nodes st) (ls_size st)) <= 1)%nat)
      as [Hord|Hshort].
    { destruct Hpre as [Hsorted|Hord]; [|by left].
      by apply sorted_angles_ordered. }
    + left. by rewrite Hq.
    + right. by rewrite Hq.
Qed.


(** C8: when [compute] is called on points sorted ascending by angle, the
    active range is sorted ascending by angle at the start of every trial.
    An accepted trial leaves a subsequence of the active range it started
    from ([pop_node] keeps the order of the others); a failed trial ends
    with [restore_trial], which sorts the range. *)
Theorem trials_start_sorted (self : Ransac) (rand : nat -> N) (line : line_t)
    (nodes : list node_t) (size : Z) :
  size <= Z.of_nat (length nodes) ->
  sorted_by_angle nodes size ->
  forall st,
    rtc (trial_step self rand line) (initial_state nodes size) st ->
    sorted_by_angle (ls_nodes st) (ls_size st)
    /\ (loop_guard self st = true ->
        let t := run_trial self line (Z.of_N (rand (ls_rand_calls st)))
                   (ls_nodes st) (ls_size st) in
        let st' := trial self rand line st in
        (tr_line_status t = 0 ->
         active (ls_nodes st') (ls_size st')
           `sublist_of` active (ls_nodes st) (ls_size st))
        /\ (tr_line_status t <> 0 ->
            (ls_nodes st', ls_size st')
            = restore_trial (tr_nodes t) (tr_ref_index t) (ls_size st)
                (tr_size t))
        /\ sorted_by_angle (ls_nodes st') (ls_size st')).
Proof.
  intros Hs Hsorted st Hrtc.
  pose proof (reachable_sorted self rand line nodes size st Hs Hsorted Hrtc)
    as Hst.
  split; [done|]. intros Hg t st'.
  destruct (reachable_rearranged self rand line nodes size st Hs Hrtc)
    as [Hre Hle].
  apply andb_prop in Hg as [Hpos _]. apply Z.ltb_lt in Hpos.
  assert (0 < ls_size st <= Z.of_nat (length (ls_nodes st))) as Hb
    by (rewrite (re_length _ _ _ Hre); lia).
  split; [|split].
  - intros H0. subst st'. rewrite (trial_accepted self rand line st H0).
    cbn [ls_nodes ls_size].
    apply (run_trial_popped self line (Z.of_N (rand (ls_rand_calls st)))
             (ls_nodes st) (ls_size st) ltac:(lia) Hb).
  - intros H0. subst st'. by rewrite (trial_failed self rand line st H0).
  - by apply trial_sorted.
Qed.

(** C9: [compute] terminates.  The loop runs a trial only while the active
    range is not empty and the trial counter is below [max_trials]; every
    trial adds one to the counter, so the loop stops after at most
    [max_trials] trials.  With [max_trials = 0] the result sequence is
    empty, whatever it held before, and the array is untouched.  ([fuel]
    bounds the turns of the loop in the model: [max_trials] are enough, and
    more change nothing.) *)
Theorem compute_terminates (self : Ransac) (rand : nat -> N) (line : line_t)
    (nodes : list node_t) (size : Z) (fuel : nat) :
  (Z.to_nat (max_trials self) <= fuel)%nat ->
  exists st,
    while_trials self rand line fuel (initial_state nodes size) = Some st
    /\ compute self rand line fuel nodes size
       = Some (set_reg_lines self (ls_lines st), ls_nodes st)
    /\ loop_guard self st = false
    /\ (forall s,
          loop_guard self s
          = (0 <? ls_size s) && (ls_trial_count s <? max_trials self))
    /\ (forall s,
          ls_trial_count (trial self rand line s) = ls_trial_count s + 1)
    /\ ls_trial_count st = Z.of_nat (ls_rand_calls st)
    /\ 0 <= ls_trial_count st <= Z.max 0 (max_trials self)
    /\ (max_trials self = 0 ->
        reg_lines (set_reg_lines self (ls_lines st)) = []
        /\ ls_nodes st = nodes)
    /\ (forall fuel', (fuel <= fuel')%nat ->
        while_trials self rand line fuel' (initial_state nodes size)
        = Some st).
Proof.
  intros Hfuel.
  destruct (while_trials_terminates self rand line fuel
              (initial_state nodes size)) as [st Hw]; [cbn; lia|].
  exists st. unfold compute. rewrite Hw.
  pose proof (while_trials_reaches self rand line fuel _ _ Hw) as [Hrtc Hg].
  pose proof (reachable_counts self rand line nodes size st Hrtc) as [Hc Hb].
  repeat split; try done; try lia.
  - intros s. apply trial_counts.
  - destruct fuel; cbn in Hw; unfold loop_guard in Hw; cbn in Hw;
      rewrite H, andb_false_r in Hw; by injection Hw as <-.
  - destruct fuel; cbn in Hw; unfold loop_guard in Hw; cbn in Hw;
      rewrite H, andb_false_r in Hw; by injection Hw as <-.
  - intros fuel' Hle. by apply (while_trials_more_fuel _ _ _ fuel).
Qed.

(** C10: [get_x(y)] returns 0 when the slope [m] is exactly 0 (of either
    sign), and [(y - b) / m] otherwise. *)
Theorem get_x_cases (l : line_t) (y : float) :
  ((exists s, m l = S754_zero s) -> get_x l y = F32.zero)
  /\ ((forall s, m l <> S754_zero s) ->
      get_x l y = F32.div (F32.sub y (b l)) (m l)).
Proof.
  unfold get_x. split.
  - intros [s ->]. done.
  - intros Hm. destruct (m l) as [s| | |] eqn:E; try done.
    + by destruct (Hm s).
    + by destruct s.
    + by destruct s.
Qed.

(** ** The association loop as a partition *)

Lemma associate_partition_aux (self : Ransac) (line : line_t)
    (A K P R : list node_t) :
  for_down (Z.of_nat (length A) - 1) 0 (associate_node self line)
    (A ++ K ++ P ++ R, Z.of_nat (length A + length K))
  = (List.filter (far_from_line self line) A ++ K
       ++ List.filter (near_line self line) A ++ P ++ R,
     Z.of_nat
       (length (List.filter (far_from_line self line) A)
        + length K)).
Proof.
  revert K P. induction A as [|a A IH] using rev_ind; intros K P.
  - cbn [length]. by rewrite for_down_empty by lia.
  - rewrite length_app. cbn [length].
    rewrite for_down_first by lia.
    replace (Z.of_nat (length A + 1) - 1 - 1) with (Z.of_nat (length A) - 1)
      by lia.
    replace (Z.of_nat (length A + 1) - 1) with (Z.of_nat (length A)) by lia.
    rewrite !List.filter_app. cbn [List.filter].
    unfold associate_node at 2.
    replace ((A ++ [a]) ++ K ++ P ++ R) with (A ++ a :: K ++ P ++ R)
      by (by rewrite <- app_assoc).
    rewrite load_middle by done.
    change (F32.leb (dst2_to_line line (x a) (y a))
              (F32.mul (proximity_epsilon self) (proximity_epsilon self)))
      with (near_line self line a).
    replace (far_from_line self line a) with (negb (near_line self line a))
      by done.
    destruct (near_line self line a); cbn [negb].
    + rewrite (pop_node_app A K (P ++ R) a) by lia.
      specialize (IH K (a :: P)). cbn [app] in IH. rewrite IH.
      rewrite !app_nil_r. by rewrite <- !app_assoc.
    + specialize (IH (a :: K) P). cbn [app length] in IH.
      replace (Z.of_nat (length A + 1 + length K))
        with (Z.of_nat (length A + Datatypes.S (length K))) by lia.
      rewrite IH. rewrite !app_nil_r, <- !app_assoc. cbn [app].
      do 2 f_equal. rewrite length_app. cbn [length]. lia.
Qed.

Lemma associate_partition (self : Ransac) (line : line_t)
    (nodes : list node_t) (size : Z) :
  0 <= size <= Z.of_nat (length nodes) ->
  associate self line nodes size
  = (List.filter (far_from_line self line) (active nodes size)
       ++ List.filter (near_line self line) (active nodes size)
       ++ removed nodes size,
     Z.of_nat
       (length (List.filter (far_from_line self line)
                  (active nodes size)))).
Proof.
  intros Hs. unfold associate.
  pose proof (associate_partition_aux self line (active nodes size) [] []
                (removed nodes size)) as H.
  cbn [app length] in H. rewrite !Nat.add_0_r in H.
  unfold active, removed in *. rewrite take_drop, length_take in H.
  replace (Z.of_nat (Z.to_nat size `min` length nodes)) with size in H by lia.
  exact H.
Qed.

Lemma filter_partition_length {A : Type} (f : A -> bool) (l : list A) :
  (length (List.filter (fun v => negb (f v)) l) + length (List.filter f l))%nat
  = length l.
Proof.
  induction l as [|a l IH]; [done|]. cbn. destruct (f a); cbn; lia.
Qed.

(** C6, as the code has it: the association loop goes through the active
    range from its last index down to 0 and pops exactly the points whose
    squared distance [dst2_to_line] to the line is [<= epsilon2]; the popped
    points fill the slots [[size', size)] and the others stay, in their
    order, in the active range.  For each point that stays the test
    [dst2 <= epsilon2] is false, which makes its squared distance strictly
    greater than [epsilon2] when neither number is NaN. *)
Theorem associate_pops_near_points (self : Ransac) (line : line_t)
    (nodes : list node_t) (size : Z) :
  0 <= size <= Z.of_nat (length nodes) ->
  let nodes' := (associate self line nodes size).1 in
  let size' := (associate self line nodes size).2 in
  associate self line nodes size
  = for_down (size - 1) 0 (associate_node self line) (nodes, size)
  /\ active nodes' size'
     = List.filter (far_from_line self line) (active nodes size)
  /\ slice size' size nodes'
     = List.filter (near_line self line) (active nodes size)
  /\ removed nodes' size = removed nodes size
  /\ (forall p,
        p ∈ active nodes size ->
        (p ∈ slice size' size nodes'
         <-> F32.leb (dst2 line p) (epsilon2 self) = true))
  /\ (forall p,
        p ∈ active nodes' size' ->
        F32.leb (dst2 line p) (epsilon2 self) = false
        /\ (is_nan (dst2 line p) = false -> is_nan (epsilon2 self) = false ->
            F32.gtb (dst2 line p) (epsilon2 self) = true)).
Proof.
  intros Hs nodes' size'. subst nodes' size'. split; [done|].
  rewrite (associate_partition self line nodes size Hs). cbn [fst snd].
  set (F := List.filter (far_from_line self line) (active nodes size)).
  set (G := List.filter (near_line self line) (active nodes size)).
  assert (size = Z.of_nat (length F + length G)) as Hlen.
  { subst F G. unfold far_from_line.
    rewrite filter_partition_length. unfold active.
    rewrite length_take. lia. }
  assert (active (F ++ G ++ removed nodes size) (Z.of_nat (length F)) = F)
    as HF by (by apply active_app).
  assert (slice (Z.of_nat (length F)) size (F ++ G ++ removed nodes size) = G)
    as HG.
  { unfold slice. rewrite Nat2Z.id, drop_app_length.
    replace (Z.to_nat (size - Z.of_nat (length F))) with (length G) by lia.
    apply take_app_length. }
  split; [done | split; [done | split; [|split]]].
  - rewrite app_assoc. apply removed_app. rewrite length_app. lia.
  - intros p Hp. rewrite HG. subst G.
    rewrite list_elem_of_In, List.filter_In, <- list_elem_of_In.
    unfold near_line, F32.leb. tauto.
  - intros p Hp. rewrite HF in Hp. subst F.
    apply list_elem_of_In, List.filter_In in Hp as [_ Hfar].
    unfold far_from_line, near_line in Hfar.
    apply negb_true_iff in Hfar.
    split; [done|]. intros Hd He. by apply SFleb_false_gt.
Qed.

(** C6 as stated fails in a trial on the finite scan [Sample.wall].  The
    sample popped around index 0 is [(0, 0)], [(1, 2^100)]; its fit succeeds
    with slope [2^100] and intercept 0.  For the point [(1, 0)] left in the
    active range both [numerator * numerator] and [m * m] overflow, the
    squared distance is [inf / inf], a NaN: the point is not popped, and its
    squared distance is not greater than [epsilon2] either. *)
Lemma associate_leaves_nan_distance :
  Forall (fun p => F32.valid (x p) = true /\ F32.valid (y p) = true
                   /\ is_nan (x p) = false /\ is_infinite (x p) = false
                   /\ is_nan (y p) = false /\ is_infinite (y p) = false)
    Sample.wall
  /\ pop_sample Sample.wall_ransac 0 Sample.wall 3 = (Sample.wall_popped, 1, 0)
  /\ seed_fit 3 Sample.wall_popped 1 Sample.no_line = (0, Sample.steep)
  /\ is_nan (epsilon2 Sample.wall_ransac) = false
  /\ ~ (forall p,
          p ∈ active
                (associate Sample.wall_ransac Sample.steep
                   Sample.wall_popped 1).1
                (associate Sample.wall_ransac Sample.steep
                   Sample.wall_popped 1).2 ->
          F32.gtb (dst2 Sample.steep p) (epsilon2 Sample.wall_ransac) = true).
Proof.
  split; [repeat constructor|].
  split; [by vm_compute|]. split; [by vm_compute|]. split; [by vm_compute|].
  intros H. specialize (H (Sample.node 1 0 100)).
  assert (active
            (associate Sample.wall_ransac Sample.steep Sample.wall_popped 1).1
            (associate Sample.wall_ransac Sample.steep Sample.wall_popped 1).2
          = [Sample.node 1 0 100]) as E by (by vm_compute).
  rewrite E in H. specialize (H ltac:(constructor)).
  vm_compute in H. discriminate.
Qed.

(** ** The sums of the fit *)

Lemma iter_up_add_node (nodes : list node_t) (n k : nat) (acc : sums) :
  (k + n <= length nodes)%nat ->
  iter_up n (Z.of_nat k) (fun i s => add_node (load nodes i) s) acc
  = fold_left (fun s p => add_node p s) (take n (drop k nodes)) acc.
Proof.
  revert k acc. induction n as [|n IH]; intros k acc Hk; [done|].
  destruct (lookup_lt_is_Some_2 nodes k) as [p Hp]; [lia|].
  rewrite (drop_S _ _ _ Hp). cbn [take fold_left iter_up].
  replace (Z.of_nat k + 1) with (Z.of_nat (Datatypes.S k)) by lia.
  rewrite IH by lia. do 2 f_equal.
  apply load_lookup. by rewrite Nat2Z.id.
Qed.

Lemma reg_sums_slice (start end_ : Z) (nodes : list node_t) :
  0 <= start <= end_ -> end_ <= Z.of_nat (length nodes) ->
  reg_sums start end_ nodes = sums_of (slice start end_ nodes).
Proof.
  intros Hs He. unfold reg_sums, sums_of, slice, for_up.
  rewrite <- (Z2Nat.id start) at 2 by lia.
  apply iter_up_add_node. lia.
Qed.

Lemma fold_add_node (pts : list node_t) (s : sums) :
  fold_left (fun s p => add_node p s) pts s
  = {| x_sum := fold_left (fun acc p => F64.add acc (F64.of_float (x p)))
                  pts (x_sum s);
       y_sum := fold_left (fun acc p => F64.add acc (F64.of_float (y p)))
                  pts (y_sum s);
       x2_sum := fold_left
                   (fun acc p =>
                      F64.add acc (F64.of_float (F32.mul (x p) (x p))))
                   pts (x2_sum s);
       xy_sum := fold_left
                   (fun acc p =>
                      F64.add acc (F64.of_float (F32.mul (x p) (y p))))
                   pts (xy_sum s) |}.
Proof.
  revert s. induction pts as [|p pts IH]; intros s; [by destruct s|].
  cbn [fold_left]. by rewrite IH.
Qed.

Lemma sums_of_sigma (pts : list node_t) :
  sums_of pts = Sums (sigma_x pts) (sigma_y pts) (sigma_x2 pts) (sigma_xy pts).
Proof. unfold sums_of. by rewrite fold_add_node. Qed.

(** The second test of [compute_reg_line] never fires: [b_denom] is
    [m_denom]. *)
Lemma compute_reg_line_unfold (start end_ : Z) (nodes : list node_t)
    (line : line_t) :
  let n := end_ - start in
  let s := reg_sums start end_ nodes in
  compute_reg_line start end_ nodes line
  = if (n =? 0) || F64.eqb (m_denom n s) F64.zero then (-1, line)
    else (0, {| m := F64.to_float (F64.div (m_num n s) (m_denom n s));
                b := F64.to_float (F64.div (b_num s) (b_denom n s)) |}).
Proof.
  intros n s. unfold compute_reg_line. fold n s.
  destruct (n =? 0); [done|]. cbn [orb].
  change (F64.of_float F32.zero) with F64.zero.
  change (b_denom n s) with (m_denom n s).
  by destruct (F64.eqb (m_denom n s) F64.zero).
Qed.

(** What [compute_reg_line] tests: it returns failure exactly when
    the point count [end - start] is zero or the denominator
    [n * sum(x*x) - sum(x) * sum(x)], computed in double precision from
    products rounded to single precision, compares equal to zero; it
    returns success otherwise.  Fitting zero points fails and leaves the
    line untouched. *)
Theorem compute_reg_line_failure (start end_ : Z) (nodes : list node_t)
    (line : line_t) :
  let n := end_ - start in
  let s := reg_sums start end_ nodes in
  let denom :=
    F64.sub (F64.mul (F64.of_int n) (x2_sum s))
            (F64.mul (x_sum s) (x_sum s)) in
  ((compute_reg_line start end_ nodes line).1 = -1
   <-> n = 0 \/ F64.eqb denom F64.zero = true)
  /\ ((compute_reg_line start end_ nodes line).1 = 0
      <-> n <> 0 /\ F64.eqb denom F64.zero = false)
  /\ (n = 0 -> compute_reg_line start end_ nodes line = (-1, line))
  /\ (0 <= start <= end_ -> end_ <= Z.of_nat (length nodes) ->
      x_sum s = sigma_x (slice start end_ nodes)
      /\ x2_sum s = sigma_x2 (slice start end_ nodes)).
Proof.
  intros n s denom.
  rewrite (compute_reg_line_unfold start end_ nodes line). fold n s.
  change (m_denom n s) with denom.
  split; [|split; [|split]].
  - destruct (Z.eqb_spec n 0); destruct (F64.eqb denom F64.zero);
      cbn; split; intros; try tauto; try done.
    destruct H as [?|?]; done.
  - destruct (Z.eqb_spec n 0); destruct (F64.eqb denom F64.zero);
      cbn; split; intros; try tauto; try done;
      destruct H as [? ?]; done.
  - intros ->. done.
  - intros Hs He. subst s. rewrite (reg_sums_slice _ _ _ Hs He).
    by rewrite sums_of_sigma.
Qed.

(** Degenerate sets that pass the test: the single point [(4097, 1)] and
    the vertical set [(4097, 0), (4097, 1)] are fitted with success,
    because [4097 * 4097]
    needs 25 bits and is rounded to [16785408] in single precision while
    [sum(x) * sum(x)] is exact in double precision, so the denominator is
    [-1] (resp. [-4]) instead of [0]; and the single finite point
    [(2^70, 0)] is fitted with success and a NaN intercept. *)
Lemma degenerate_sets_are_fitted :
  Forall (fun p => F32.valid (x p) = true /\ F32.valid (y p) = true)
    (Sample.single ++ Sample.vertical ++ Sample.single_far)
  /\ compute_reg_line 0 1 Sample.single Sample.no_line
     = (0, Line (S754_zero true) (F32.of_int 1))
  /\ m_denom 1 (reg_sums 0 1 Sample.single) = F64.of_int (-1)
  /\ Forall (fun p => x p = F32.of_int 4097) Sample.vertical
  /\ (compute_reg_line 0 2 Sample.vertical Sample.no_line).1 = 0
  /\ m_denom 2 (reg_sums 0 2 Sample.vertical) = F64.of_int (-4)
  /\ (compute_reg_line 0 1 Sample.single_far Sample.no_line).1 = 0
  /\ is_nan (b (compute_reg_line 0 1 Sample.single_far Sample.no_line).2)
     = true.
Proof.
  split; [repeat constructor|].
  split; [by vm_compute|]. split; [by vm_compute|].
  split; [repeat constructor|].
  repeat split; by vm_compute.
Qed.

(** What [compute_reg_line] computes: when it succeeds on the [n]
    points of [[start, end)], the slope and the intercept are the roundings
    to [float] of
    [(n * Sxy - Sx * Sy) / (n * Sx2 - Sx * Sx)] and
    [(Sy * Sx2 - Sx * Sxy) / (n * Sx2 - Sx * Sx)],
    evaluated in double precision on the sums [Sx], [Sy], [Sx2], [Sxy] of
    the points, each accumulated in double precision from the first point
    to the last, the products [x * x] and [x * y] being rounded to [float].
    On the points [(0,3), (1,5), (2,7), (3,9)] of [y = 2x + 3] it returns
    slope 2 and intercept 3 exactly. *)
Theorem compute_reg_line_fit (start end_ : Z) (nodes : list node_t)
    (line : line_t) :
  0 <= start <= end_ -> end_ <= Z.of_nat (length nodes) ->
  (compute_reg_line start end_ nodes line).1 = 0 ->
  let n := F64.of_int (end_ - start) in
  let pts := slice start end_ nodes in
  let fit := (compute_reg_line start end_ nodes line).2 in
  let denom :=
    F64.sub (F64.mul n (sigma_x2 pts)) (F64.mul (sigma_x pts) (sigma_x pts)) in
  m fit
  = F64.to_float
      (F64.div (F64.sub (F64.mul n (sigma_xy pts))
                        (F64.mul (sigma_x pts) (sigma_y pts)))
               denom)
  /\ b fit
     = F64.to_float
         (F64.div (F64.sub (F64.mul (sigma_y pts) (sigma_x2 pts))
                           (F64.mul (sigma_x pts) (sigma_xy pts)))
                  denom)
  /\ compute_reg_line 0 4 Sample.scan line
     = (0, Line (F32.of_int 2) (F32.of_int 3)).
Proof.
  intros Hs He Hok n pts fit denom. subst fit.
  rewrite (compute_reg_line_unfold start end_ nodes line) in *.
  destruct (_ || _); [done|]. cbn [fst snd m b].
  rewrite (reg_sums_slice _ _ _ Hs He). fold pts.
  rewrite (sums_of_sigma pts).
  split; [done | split; [done|]].
  rewrite (compute_reg_line_unfold 0 4 Sample.scan line).
  by vm_compute.
Qed.

(** The fit of two points of [y = 2x + 3], [(4097, 8197)] and
    [(4098, 8199)]: the fit succeeds with slope [-4] and intercept
    [24588].  The products [4097 * 4097], [4097 * 8197] and
    [4098 * 8199] are rounded to [float] ([16785408], [33583108],
    [33599504]), which turns the denominator [1] into [-1]. *)
Lemma fit_of_exact_points_is_off :
  Forall (fun p => get_y (Line (F32.of_int 2) (F32.of_int 3)) (x p) = y p)
    Sample.on_line_far
  /\ compute_reg_line 0 2 Sample.on_line_far Sample.no_line
     = (0, Line (F32.of_int (-4)) (F32.of_int 24588)).
Proof. split; [repeat constructor | by vm_compute]. Qed.

(** ** Where the fit departs from least squares

    [x_sum], [y_sum], [x2_sum] and [xy_sum] are [double], and the quotients
    are taken in [double] and cast to [float]; but the products
    [n.x * n.x] and [n.x * n.y] (lines 193-194) are products of two
    [float], rounded to [float] before they are added to the sums.  From
    coordinates of 13 bits on the rounding is visible. *)

(** C4: the vertical pair [(4097, 0), (4097, 1)] is not rejected.  Its
    denominator [n * sum(x*x) - sum(x) * sum(x)] is zero, and the fit in
    double precision rejects it; [compute_reg_line] rounds [4097 * 4097]
    to [16785408], finds the denominator [-4] and returns success with the
    line [y = 0.5], and [compute], called on this sorted scan, returns that
    line.  The single point [(4097, 1)] is fitted with success in the same
    way. *)
Theorem vertical_pair_is_fitted :
  Forall (fun p => x p = F32.of_int 4097) Sample.vertical
  /\ sorted_by_angle Sample.vertical 2
  /\ least_squares Sample.vertical = None
  /\ m_denom 2 (reg_sums 0 2 Sample.vertical) = F64.of_int (-4)
  /\ compute_reg_line 0 2 Sample.vertical Sample.no_line
     = (0, Line (S754_zero true) (F32.div (F32.of_int 1) (F32.of_int 2)))
  /\ (exists nodes',
        compute Sample.wall_ransac Sample.rand Sample.no_line 1
          Sample.vertical 2
        = Some (set_reg_lines Sample.wall_ransac
                  [Line (S754_zero true)
                     (F32.div (F32.of_int 1) (F32.of_int 2))],
                nodes'))
  /\ least_squares Sample.single = None
  /\ (compute_reg_line 0 1 Sample.single Sample.no_line).1 = 0.
Proof.
  split; [repeat constructor|].
  split; [change (active Sample.vertical 2) with Sample.vertical;
          repeat constructor|].
  split; [by vm_compute|]. split; [by vm_compute|]. split; [by vm_compute|].
  split; [eexists; by vm_compute|].
  split; by vm_compute.
Qed.

(** C5: the scan [(4097, 8197), (4098, 8199)] lies on [y = 2x + 3], and
    the fit in double precision returns slope 2 and intercept 3 exactly;
    [compute_reg_line] rounds the products [4097 * 4097], [4097 * 8197]
    and [4098 * 8199] to [float] and returns success with slope [-4] and
    intercept [24588], and [compute], called on this sorted scan, returns
    that line. *)
Theorem exact_scan_is_misfitted :
  Forall (fun p => get_y (Line (F32.of_int 2) (F32.of_int 3)) (x p) = y p)
    Sample.on_line_far
  /\ sorted_by_angle Sample.on_line_far 2
  /\ least_squares Sample.on_line_far
     = Some (Line (F32.of_int 2) (F32.of_int 3))
  /\ compute_reg_line 0 2 Sample.on_line_far Sample.no_line
     = (0, Line (F32.of_int (-4)) (F32.of_int 24588))
  /\ (exists nodes',
        compute Sample.wall_ransac Sample.rand Sample.no_line 1
          Sample.on_line_far 2
        = Some (set_reg_lines Sample.wall_ransac
                  [Line (F32.of_int (-4)) (F32.of_int 24588)],
                nodes')).
Proof.
  split; [repeat constructor|].
  split; [change (active Sample.on_line_far 2) with Sample.on_line_far;
          repeat constructor|].
  split; [by vm_compute|]. split; [by vm_compute|].
  eexists; by vm_compute.
Qed.

(** * Instances *)

Lemma sample_scan_sorted : sorted_by_angle Sample.scan 6.
Proof.
  unfold sorted_by_angle. change (active Sample.scan 6) with Sample.scan.
  repeat constructor.
Qed.

Lemma compute_keeps_points_witness :
  6 <= Z.of_nat (length Sample.scan)
  /\ exists self' nodes',
       compute Sample.ransac Sample.rand Sample.no_line
         (Z.to_nat (max_trials Sample.ransac)) Sample.scan 6
       = Some (self', nodes').
Proof.
  split; [cbn; lia|].
  apply (compute_keeps_points Sample.ransac Sample.rand Sample.no_line
           Sample.scan 6).
  cbn; lia.
Defined.

Lemma failed_trial_restores_witness :
  let st := initial_state Sample.scan 6 in
  let st' := trial Sample.strict Sample.rand Sample.no_line st in
  ls_size st' = 6
  /\ active (ls_nodes st') 6 ≡ₚ active Sample.scan 6
  /\ sorted_by_angle (ls_nodes st') 6.
Proof.
  intros st st'.
  destruct (failed_trial_restores Sample.strict Sample.rand Sample.no_line st)
    as (_ & H1 & H2 & _ & H3).
  - cbn; lia.
  - left. exact sample_scan_sorted.
  - by vm_compute.
  - auto.
Defined.


Lemma compute_reg_line_failure_witness :
  compute_reg_line 2 2 Sample.scan Sample.no_line = (-1, Sample.no_line).
Proof.
  by apply (compute_reg_line_failure 2 2 Sample.scan Sample.no_line).
Defined.

Lemma compute_reg_line_fit_witness :
  0 <= 0 <= 4 /\ 4 <= Z.of_nat (length Sample.scan)
  /\ (compute_reg_line 0 4 Sample.scan Sample.no_line).1 = 0
  /\ compute_reg_line 0 4 Sample.scan Sample.no_line
     = (0, Line (F32.of_int 2) (F32.of_int 3)).
Proof.
  split; [lia|]. split; [cbn; lia|]. split; [by vm_compute|].
  apply (compute_reg_line_fit 0 4 Sample.scan Sample.no_line);
    [lia | cbn; lia | by vm_compute].
Defined.

Lemma associate_pops_near_points_witness :
  0 <= 6 <= Z.of_nat (length Sample.scan)
  /\ removed
       (associate Sample.ransac (Line (F32.of_int 2) (F32.of_int 3))
          Sample.scan 6).1 6
     = removed Sample.scan 6.
Proof.
  split; [cbn; lia|].
  apply (associate_pops_near_points Sample.ransac
           (Line (F32.of_int 2) (F32.of_int 3)) Sample.scan 6).
  cbn; lia.
Defined.

Lemma pop_node_contract_witness :
  0 <= 1 < 4 /\ 4 <= Z.of_nat (length Sample.scan)
  /\ exists nodes',
       pop_node 1 Sample.scan 4 = (nodes', 4 - 1)
       /\ length nodes' = length Sample.scan
       /\ (forall i, 0 <= i < 1 -> load nodes' i = load Sample.scan i)
       /\ (forall i, 1 <= i < 4 - 1 ->
             load nodes' i = load Sample.scan (i + 1))
       /\ load nodes' (4 - 1) = load Sample.scan 1
       /\ (forall i, 4 <= i -> load nodes' i = load Sample.scan i)
       /\ active nodes' (4 - 1)
          = delete (Z.to_nat 1) (active Sample.scan 4).
Proof.
  split; [lia|]. split; [cbn; lia|].
  apply (pop_node_contract 1 4 Sample.scan); [lia | cbn; lia].
Defined.

Lemma trials_start_sorted_witness :
  let st := trial Sample.ransac Sample.rand Sample.no_line
              (initial_state Sample.scan 6) in
  sorted_by_angle (ls_nodes st) (ls_size st).
Proof.
  intros st.
  refine (proj1 (trials_start_sorted Sample.ransac Sample.rand Sample.no_line
                   Sample.scan 6 _ sample_scan_sorted st _)).
  - cbn; lia.
  - eapply rtc_l; [|apply rtc_refl]. split; [by vm_compute | reflexivity].
Defined.

Lemma compute_terminates_witness :
  (Z.to_nat (max_trials Sample.ransac) <= 5)%nat
  /\ exists st,
       while_trials Sample.ransac Sample.rand Sample.no_line 5
         (initial_state Sample.scan 6) = Some st
       /\ 0 <= ls_trial_count st <= Z.max 0 (max_trials Sample.ransac).
Proof.
  split; [cbn; lia|].
  destruct (compute_terminates Sample.ransac Sample.rand Sample.no_line
              Sample.scan 6 5) as (st & H1 & _ & _ & _ & _ & _ & H2 & _).
  - cbn; lia.
  - exists st. auto.
Defined.

Lemma get_x_cases_witness :
  get_x (Line (S754_zero true) (F32.of_int 3)) (F32.of_int 5) = F32.zero
  /\ get_x (Line (F32.of_int 2) (F32.of_int 3)) (F32.of_int 7)
     = F32.of_int 2.
Proof.
  split.
  - apply (get_x_cases (Line (S754_zero true) (F32.of_int 3)) (F32.of_int 5)).
    by exists true.
  - rewrite (proj2 (get_x_cases (Line (F32.of_int 2) (F32.of_int 3))
                      (F32.of_int 7))); [by vm_compute|].
    intros s. by vm_compute.
Defined.

(** * Further lemmas *)

(** ** The order of [float] values, continued *)

Section FloatStrictOrder.

#[local] Ltac cmp_cases :=
  repeat match goal with
  | |- context [Z.compare ?a ?b] => destruct (Z.compare_spec a b)
  | H : context [Z.compare ?a ?b] |- _ => destruct (Z.compare_spec a b)
  | |- context [Pos.compare_cont Eq ?a ?b] =>
      change (Pos.compare_cont Eq a b) with (Pos.compare a b);
      destruct (Pos.compare_spec a b)
  | H : context [Pos.compare_cont Eq ?a ?b] |- _ =>
      change (Pos.compare_cont Eq a b) with (Pos.compare a b) in H;
      destruct (Pos.compare_spec a b)
  end.

#[local] Ltac float_cases :=
  repeat match goal with
  | v : spec_float |- _ => destruct v as [[]|[]| |[] ? ?]
  end;
  cbn in *; try discriminate; try reflexivity.

#[local] Ltac order_cases :=
  float_cases; cmp_cases; cbn in *;
  try discriminate; try reflexivity; intros; lia.

Lemma SFltb_trans (u v w : spec_float) :
  SFltb u v = true -> SFltb v w = true -> SFltb u w = true.
Proof. unfold SFltb, SFcompare. order_cases. Qed.

Lemma SFltb_not_leb (u v : spec_float) :
  SFltb u v = true -> SFleb v u = false.
Proof. unfold SFleb, SFltb, SFcompare. order_cases. Qed.

End FloatStrictOrder.

#[global] Instance angle_lt_trans : Transitive angle_lt.
Proof. intros p q r. unfold angle_lt, F32.ltb. apply SFltb_trans. Qed.

Lemma angle_lt_le (p q : node_t) : angle_lt p q -> angle_le p q.
Proof. apply SFltb_leb. Qed.

Lemma angle_lt_not_ge (p q : node_t) : angle_lt p q -> angle_le q p -> False.
Proof.
  unfold angle_lt, angle_le, F32.ltb, F32.leb. intros H1 H2.
  apply SFltb_not_leb in H1. congruence.
Qed.

Lemma strongly_sorted_impl {A : Type} (R R' : relation A) (l : list A) :
  (forall u v, R u v -> R' u v) -> StronglySorted R l -> StronglySorted R' l.
Proof.
  intros HR. induction 1 as [|a l Hl IH Ha]; constructor; [done|].
  eapply Forall_impl; [exact Ha | auto].
Qed.

Lemma strongly_sorted_compare {A : Type} (R : relation A) (l : list A)
    (u v : A) :
  StronglySorted R l -> u ∈ l -> v ∈ l -> u = v \/ R u v \/ R v u.
Proof.
  induction 1 as [|a l Hl IH Ha]; intros Hu Hv; [by apply elem_of_nil in Hu|].
  apply elem_of_cons in Hu as [->|Hu], Hv as [->|Hv]; auto.
  - right; left. by apply (proj1 (Forall_forall _ _) Ha).
  - right; right. by apply (proj1 (Forall_forall _ _) Ha).
Qed.

(** A list sorted by [<=] that is a permutation of a list sorted by [<] is
    that list. *)
Lemma sorted_perm_of_strict (l l' : list node_t) :
  StronglySorted angle_lt l -> l' ≡ₚ l -> StronglySorted angle_le l' ->
  l' = l.
Proof.
  intros Hl Hp Hl'.
  apply (StronglySorted_unique_strong angle_le); [|done| |done].
  - intros u v Hu Hv Huv Hvu. rewrite Hp in Hu.
    destruct (strongly_sorted_compare _ _ u v Hl Hu Hv) as [?|[H|H]];
      [done | |]; exfalso; eapply angle_lt_not_ge; eauto.
  - eapply strongly_sorted_impl; [apply angle_lt_le | done].
Qed.

Lemma strictly_sorted_strongly (nodes : list node_t) (size : Z) :
  strictly_sorted_by_angle nodes size ->
  StronglySorted angle_lt (active nodes size).
Proof. apply Sorted_StronglySorted, angle_lt_trans. Qed.

Lemma strictly_sorted_sorted (nodes : list node_t) (size : Z) :
  strictly_sorted_by_angle nodes size -> sorted_by_angle nodes size.
Proof.
  intros H. apply StronglySorted_Sorted.
  eapply strongly_sorted_impl; [apply angle_lt_le|].
  by apply strictly_sorted_strongly.
Qed.

Lemma active_removed (nodes : list node_t) (n : Z) :
  active nodes n ++ removed nodes n = nodes.
Proof. apply take_drop. Qed.


(** ** More on one trial *)

(** An accepted trial: the line it appends is the fit of the block it
    consumed, of at least [block_min] points. *)
Lemma run_trial_accepts (self : Ransac) (line : line_t) (r : Z)
    (nodes : list node_t) (size : Z) :
  0 <= r -> 0 < size <= Z.of_nat (length nodes) ->
  let t := run_trial self line r nodes size in
  tr_line_status t = 0 ->
  (forall l0, compute_reg_line (tr_size t) size (tr_nodes t) l0
              = (0, tr_line t))
  /\ tr_size t + block_min self <= size.
Proof.
  intros Hr Hs. unfold run_trial, block_min.
  pose proof (pop_sample_popped self r nodes size Hr Hs) as Hp.
  destruct (pop_sample self r nodes size) as [[nodes1 size1] ref1].
  destruct Hp as [Hp Hlt].
  assert (0 <= size1 <= Z.of_nat (length nodes1)) as Hs1.
  { rewrite (popped_from_length _ _ _ _ Hp). destruct Hp. lia. }
  unfold seed_fit.
  destruct (Z.leb_spec 2 (size - size1)) as [Hseed|Hseed].
  - destruct (compute_reg_line size1 size nodes1 line)
      as [seed_status line1].
    pose proof (associate_popped self line1 nodes1 size1 Hs1) as Ha.
    destruct (Z.eqb_spec seed_status 0) as [->|Hne].
    + destruct (associate self line1 nodes1 size1) as [nodes2 size2].
      destruct (Z.leb_spec (line_consensus self) (size - size2)) as [Hc|Hc];
        cbn [andb].
      * destruct (compute_reg_line size2 size nodes2 line1)
          as [status line2] eqn:Hfit.
        cbn. intros ->. split; [|destruct Ha; lia].
        intros l0.
        rewrite <- (compute_reg_line_success size2 size nodes2 line1 l0);
          by rewrite Hfit.
      * cbn. lia.
    + rewrite andb_false_r. cbn. lia.
  - cbn [Z.eqb]. rewrite andb_false_r. cbn. lia.
Qed.

(** A failed trial on strictly ascending angles gives the array back. *)
Lemma trial_failed_strict (self : Ransac) (rand : nat -> N)
    (line : line_t) (st : loop_state) :
  0 < ls_size st <= Z.of_nat (length (ls_nodes st)) ->
  strictly_sorted_by_angle (ls_nodes st) (ls_size st) ->
  tr_line_status
    (run_trial self line (Z.of_N (rand (ls_rand_calls st)))
       (ls_nodes st) (ls_size st)) <> 0 ->
  ls_nodes (trial self rand line st) = ls_nodes st
  /\ ls_size (trial self rand line st) = ls_size st
  /\ ls_lines (trial self rand line st) = ls_lines st.
Proof.
  intros Hs Hstrict Hfail.
  destruct (trial_rearranged self rand line st Hs) as [[_ Hperm Hrem] _].
  pose proof (trial_sorted self rand line st Hs
                (strictly_sorted_sorted _ _ Hstrict)) as Hsorted.
  rewrite (trial_failed self rand line st Hfail) in *.
  cbn [ls_nodes ls_size ls_lines] in *.
  split; [|done].
  set (nodes' := (restore_trial _ _ _ _).1) in *.
  rewrite <- (active_removed nodes' (ls_size st)),
    <- (active_removed (ls_nodes st) (ls_size st)), Hrem.
  f_equal. apply sorted_perm_of_strict; [|done|].
  - by apply strictly_sorted_strongly.
  - apply Sorted_StronglySorted; [apply angle_le_trans | exact Hsorted].
Qed.

(** ** More on the loop *)

(** From any state on, the trials rearrange the active range of that state
    and leave the rest of the array alone. *)
Lemma steps_rearranged (self : Ransac) (rand : nat -> N) (line : line_t)
    (st st' : loop_state) :
  ls_size st <= Z.of_nat (length (ls_nodes st)) ->
  rtc (trial_step self rand line) st st' ->
  rearranged (ls_size st) (ls_nodes st) (ls_nodes st')
  /\ ls_size st' <= ls_size st.
Proof.
  intros Hs Hrtc. revert st' Hrtc.
  apply (rtc_ind_r (fun st' => rearranged (ls_size st) (ls_nodes st)
                                 (ls_nodes st')
                               /\ ls_size st' <= ls_size st)).
  - split; [apply rearranged_refl | lia].
  - intros s s' Hrtc [Hg ->] [Hre Hle].
    apply andb_prop in Hg as [Hpos _]. apply Z.ltb_lt in Hpos.
    destruct (trial_rearranged self rand line s) as [Hre' Hle'].
    { rewrite (re_length _ _ _ Hre). lia. }
    split; [|lia].
    eapply rearranged_trans; [exact Hre|].
    by apply (rearranged_mono (ls_size s)).
Qed.

Lemma reachable_bounds (self : Ransac) (rand : nat -> N) (line : line_t)
    (nodes : list node_t) (size : Z) (st : loop_state) :
  size <= Z.of_nat (length nodes) ->
  rtc (trial_step self rand line) (initial_state nodes size) st ->
  ls_size st <= Z.of_nat (length (ls_nodes st))
  /\ length (ls_nodes st) = length nodes
  /\ ls_size st <= size
  /\ (0 <= size -> 0 <= ls_size st).
Proof.
  intros Hs Hrtc.
  destruct (reachable_rearranged self rand line nodes size st Hs Hrtc)
    as [Hre Hle].
  rewrite (re_length _ _ _ Hre). repeat split; try lia.
  clear Hre Hle. revert st Hrtc.
  apply (rtc_ind_r (fun st => 0 <= size -> 0 <= ls_size st)); [done|].
  intros s s' Hrtc [Hg ->] IH Hsz.
  destruct (reachable_rearranged self rand line nodes size s Hs Hrtc)
    as [Hre Hle].
  apply andb_prop in Hg as [Hpos _]. apply Z.ltb_lt in Hpos.
  destruct (trial_rearranged self rand line s) as [_ Hle'];
    [rewrite (re_length _ _ _ Hre)|]; lia.
Qed.

(** ** The window of a fit *)

Lemma compute_reg_line_window (start end_ : Z) (nodes nodes' : list node_t)
    (l0 : line_t) :
  0 <= start <= end_ ->
  end_ <= Z.of_nat (length nodes) -> end_ <= Z.of_nat (length nodes') ->
  slice start end_ nodes = slice start end_ nodes' ->
  compute_reg_line start end_ nodes l0 = compute_reg_line start end_ nodes' l0.
Proof.
  intros Hs He He' Heq. rewrite !compute_reg_line_unfold.
  by rewrite !reg_sums_slice, Heq by done.
Qed.

Lemma slice_removed (lo mid hi : Z) (nodes : list node_t) :
  0 <= lo <= mid ->
  slice mid hi nodes
  = take (Z.to_nat (hi - mid)) (drop (Z.to_nat (mid - lo)) (removed nodes lo)).
Proof.
  intros H. unfold slice, removed. rewrite drop_drop. do 2 f_equal. lia.
Qed.

(** ** Blocks of consumed points *)

Lemma block_min_ge (self : Ransac) :
  2 <= block_min self /\ line_consensus self <= block_min self.
Proof. unfold block_min. lia. Qed.

Lemma tiles_le (self : Ransac) (nodes : list node_t) (lines : list line_t)
    (hi lo : Z) :
  tiles self nodes hi lines lo -> lo <= hi.
Proof.
  revert hi. induction lines as [|l lines IH]; intros hi; cbn.
  - lia.
  - intros (mid & H1 & H2 & _ & _). pose proof (block_min_ge self). lia.
Qed.

Lemma tiles_length (self : Ransac) (nodes : list node_t)
    (lines : list line_t) (hi lo : Z) :
  tiles self nodes hi lines lo ->
  block_min self * Z.of_nat (length lines) <= hi - lo.
Proof.
  revert hi. induction lines as [|l lines IH]; intros hi; cbn [tiles length].
  - lia.
  - intros (mid & H1 & H2 & _ & H3). apply IH in H3. lia.
Qed.

Lemma tiles_ext (self : Ransac) (nodes nodes' : list node_t)
    (lines : list line_t) (hi lo : Z) :
  0 <= lo -> hi <= Z.of_nat (length nodes) ->
  length nodes' = length nodes ->
  removed nodes' lo = removed nodes lo ->
  tiles self nodes hi lines lo -> tiles self nodes' hi lines lo.
Proof.
  intros Hlo Hhi Hlen Hrem. revert hi Hhi.
  induction lines as [|l lines IH]; intros hi Hhi; cbn; [done|].
  intros (mid & H1 & H2 & Hfit & H3).
  pose proof (block_min_ge self) as [Hb _].
  exists mid. repeat split; [done | done | | apply IH; [lia | done]].
  intros l0. rewrite <- (Hfit l0).
  apply compute_reg_line_window; [lia | lia | lia |].
  by rewrite !(slice_removed lo), Hrem by lia.
Qed.

Lemma tiles_snoc (self : Ransac) (nodes : list node_t) (lines : list line_t)
    (hi mid lo : Z) (l : line_t) :
  tiles self nodes hi lines mid ->
  lo + block_min self <= mid ->
  (forall l0, compute_reg_line lo mid nodes l0 = (0, l)) ->
  tiles self nodes hi (lines ++ [l]) lo.
Proof.
  intros Ht Hlo Hfit. revert hi Ht.
  pose proof (block_min_ge self) as [Hb _].
  induction lines as [|l' lines IH]; intros hi; cbn.
  - intros ->. exists lo. repeat split; try done; lia.
  - intros (mid' & H1 & H2 & Hfit' & H3).
    exists mid'. repeat split; [|done|done|by apply IH].
    apply tiles_le in H3. lia.
Qed.

(** The lines of every state the loop reaches are the fits of the blocks
    consumed so far, and there are no more of them than trials. *)
Lemma reachable_tiles (self : Ransac) (rand : nat -> N) (line : line_t)
    (nodes : list node_t) (size : Z) (st : loop_state) :
  size <= Z.of_nat (length nodes) ->
  rtc (trial_step self rand line) (initial_state nodes size) st ->
  tiles self (ls_nodes st) size (ls_lines st) (ls_size st)
  /\ Z.of_nat (length (ls_lines st)) <= ls_trial_count st.
Proof.
  intros Hs Hrtc. revert st Hrtc.
  apply (rtc_ind_r
           (fun st => tiles self (ls_nodes st) size (ls_lines st) (ls_size st)
                      /\ Z.of_nat (length (ls_lines st)) <= ls_trial_count st)).
  - cbn. split; [done | lia].
  - intros st st' Hrtc [Hg ->] [IH Hcount].
    destruct (reachable_bounds self rand line nodes size st Hs Hrtc)
      as (Hb1 & Hb2 & Hb3 & _).
    apply andb_prop in Hg as [Hpos _]. apply Z.ltb_lt in Hpos.
    assert (0 < ls_size st <= Z.of_nat (length (ls_nodes st))) as Hb by lia.
    destruct (trial_rearranged self rand line st Hb) as [[Hlen _ Hrem] _].
    apply (tiles_ext self _ (ls_nodes (trial self rand line st))) in IH;
      [|lia|lia|done|done].
    pose proof (run_trial_accepts self line
                  (Z.of_N (rand (ls_rand_calls st))) (ls_nodes st)
                  (ls_size st) ltac:(lia) Hb) as Hacc.
    cbn zeta in Hacc.
    destruct (Z.eq_dec
                (tr_line_status
                   (run_trial self line (Z.of_N (rand (ls_rand_calls st)))
                      (ls_nodes st) (ls_size st))) 0) as [H0|H0].
    + destruct (Hacc H0) as [Hfit Hblock].
      rewrite (trial_accepted self rand line st H0) in *.
      cbn [ls_nodes ls_size ls_lines ls_trial_count] in *.
      split; [by eapply tiles_snoc|].
      rewrite length_app. cbn [length]. lia.
    + rewrite (trial_failed self rand line st H0) in *.
      cbn [ls_nodes ls_size ls_lines ls_trial_count] in *.
      split; [done | lia].
Qed.

(** On strictly ascending angles, the states the loop reaches keep the
    active points in their original order, and the array itself as long as
    no line is accepted. *)
Lemma reachable_strict (self : Ransac) (rand : nat -> N) (line : line_t)
    (nodes : list node_t) (size : Z) (st : loop_state) :
  size <= Z.of_nat (length nodes) ->
  strictly_sorted_by_angle nodes size ->
  rtc (trial_step self rand line) (initial_state nodes size) st ->
  strictly_sorted_by_angle (ls_nodes st) (ls_size st)
  /\ active (ls_nodes st) (ls_size st) `sublist_of` active nodes size
  /\ (ls_lines st = [] -> ls_nodes st = nodes /\ ls_size st = size).
Proof.
  intros Hs Hstrict Hrtc. revert st Hrtc.
  apply (rtc_ind_r
           (fun st =>
              strictly_sorted_by_angle (ls_nodes st) (ls_size st)
              /\ active (ls_nodes st) (ls_size st)
                   `sublist_of` active nodes size
              /\ (ls_lines st = [] ->
                  ls_nodes st = nodes /\ ls_size st = size))).
  - cbn. done.
  - intros st st' Hrtc [Hg ->] (IH1 & IH2 & IH3).
    destruct (reachable_bounds self rand line nodes size st Hs Hrtc)
      as (Hb1 & Hb2 & Hb3 & _).
    apply andb_prop in Hg as [Hpos _]. apply Z.ltb_lt in Hpos.
    assert (0 < ls_size st <= Z.of_nat (length (ls_nodes st))) as Hb by lia.
    destruct (Z.eq_dec
                (tr_line_status
                   (run_trial self line (Z.of_N (rand (ls_rand_calls st)))
                      (ls_nodes st) (ls_size st))) 0) as [H0|H0].
    + pose proof (run_trial_popped self line
                    (Z.of_N (rand (ls_rand_calls st))) (ls_nodes st)
                    (ls_size st) ltac:(lia) Hb) as [Hp _].
      rewrite (trial_accepted self rand line st H0).
      cbn [ls_nodes ls_size ls_lines].
      split; [|split].
      * apply StronglySorted_Sorted.
        eapply strongly_sorted_sublist; [apply Hp|].
        by apply strictly_sorted_strongly.
      * etrans; [apply Hp | done].
      * intros E. by apply app_nil in E as [_ ?].
    + destruct (trial_failed_strict self rand line st Hb IH1 H0)
        as (-> & -> & ->).
      done.
Qed.

(** ** The sample of a trial *)

(** What [pop_node] does to the points, read by index and by block. *)
Lemma pop_node_effects (node size : Z) (nodes : list node_t) :
  0 <= node < size -> size <= Z.of_nat (length nodes) ->
  (forall j, 0 <= j < node ->
     load (pop_node node nodes size).1 j = load nodes j)
  /\ (forall j, node <= j < size - 1 ->
        load (pop_node node nodes size).1 j = load nodes (j + 1))
  /\ (forall hi, size <= hi ->
        slice (size - 1) hi (pop_node node nodes size).1
        = load nodes node :: slice size hi nodes).
Proof.
  intros Hn Hs.
  destruct (pop_node_split node size nodes Hn Hs)
    as (A & p & B & C & -> & HA & HB & ->).
  cbn [fst]. split; [|split].
  - intros j Hj. unfold load.
    by rewrite !lookup_total_app_l by lia.
  - intros j Hj. unfold load.
    rewrite (lookup_total_app_r A) by lia.
    rewrite (lookup_total_app_l B) by lia.
    rewrite (lookup_total_app_r A) by lia.
    rewrite (lookup_total_app_r [p]) by (cbn [length]; lia).
    rewrite (lookup_total_app_l B) by (cbn [length]; lia).
    f_equal. cbn [length]. lia.
  - intros hi Hhi.
    assert (load (A ++ [p] ++ B ++ C) node = p) as ->
      by (by apply load_middle).
    replace (A ++ [p] ++ B ++ C) with ((A ++ [p] ++ B) ++ C)
      by (by rewrite <- !app_assoc).
    replace (A ++ B ++ [p] ++ C) with ((A ++ B) ++ [p] ++ C)
      by (by rewrite <- !app_assoc).
    unfold slice.
    rewrite (drop_app_length' (A ++ B))
      by (rewrite length_app; lia).
    rewrite (drop_app_length' (A ++ [p] ++ B))
      by (rewrite !length_app; cbn [length]; lia).
    replace (Z.to_nat (hi - (size - 1)))
      with (Datatypes.S (Z.to_nat (hi - size))) by lia.
    done.
Qed.

(** The neighbour loop: [ref_index] follows the reference point, every
    point popped passed the test on its angle, and a turn pops at most one
    point. *)
Lemma neighbour_loop_seed (self : Ransac) (ref_angle : float)
    (nodes : list node_t) (size ref_index : Z) :
  0 <= ref_index < size -> size <= Z.of_nat (length nodes) ->
  let '(nodes', size', ref_index') :=
    for_up 0 (sample_size self)
      (pick_neighbour (sample_deviation self) ref_angle)
      (nodes, size, ref_index) in
  0 <= ref_index' < size' /\ size' <= size
  /\ length nodes' = length nodes
  /\ load nodes' ref_index' = load nodes ref_index
  /\ size - size' <= Z.max 0 (sample_size self)
  /\ Forall (fun p => within_deviation self ref_angle p = true)
       (slice size' size nodes').
Proof.
  intros Href Hs.
  set (P := fun (i : Z) (s : list node_t * Z * Z) =>
              let '(nodes', size', ref_index') := s in
              0 <= ref_index' < size' /\ size' <= size
              /\ length nodes' = length nodes
              /\ load nodes' ref_index' = load nodes ref_index
              /\ size - size' <= i
              /\ Forall (fun p => within_deviation self ref_angle p = true)
                   (slice size' size nodes')).
  assert (P 0 (nodes, size, ref_index)) as H0.
  { cbn. repeat split; try lia.
    unfold slice. rewrite Z.sub_diag. cbn. constructor. }
  destruct (Z.le_gt_cases 0 (sample_size self)) as [Hn|Hn].
  - pose proof (for_up_invariant P 0 (sample_size self)
                  (pick_neighbour (sample_deviation self) ref_angle)
                  (nodes, size, ref_index) Hn H0) as Hinv.
    destruct (for_up _ _ _ _) as [[nodes' size'] ref'].
    replace (Z.max 0 (sample_size self)) with (sample_size self) by lia.
    apply Hinv. clear Hinv H0.
    intros i [[nodes1 size1] ref1] Hi (H1 & H2 & H3 & H4 & H5 & H6).
    unfold P, pick_neighbour.
    set (pick := if Z.rem i 2 =? 0 then _ else _).
    assert (0 <= pick < size1) as Hpick.
    { subst pick. destruct (Z.rem i 2 =? 0); apply Z.rem_bound_pos; lia. }
    destruct (negb (pick =? ref1) && _) eqn:Hc;
      [|repeat split; try done; lia].
    apply andb_prop in Hc as [Hne Hdev].
    apply negb_true_iff, Z.eqb_neq in Hne.
    assert (size1 <= Z.of_nat (length nodes1)) as Hs1 by lia.
    destruct (pop_node_popped_from pick size1 nodes1 Hpick Hs1) as [Hq Hsz].
    destruct (pop_node_effects pick size1 nodes1 Hpick Hs1)
      as (Hlow & Hshift & Hblock).
    destruct (pop_node pick nodes1 size1) as [nodes2 size2].
    cbn [fst snd] in *. subst size2.
    repeat split.
    + destruct (Z.ltb_spec pick ref1); lia.
    + destruct (Z.ltb_spec pick ref1); lia.
    + lia.
    + rewrite (popped_from_length _ _ _ _ Hq). lia.
    + rewrite <- H4. destruct (Z.ltb_spec pick ref1).
      * rewrite Hshift by lia. f_equal. lia.
      * apply Hlow. lia.
    + lia.
    + rewrite Hblock by lia. constructor; [exact Hdev | done].
  - rewrite for_up_empty by lia.
    replace (Z.max 0 (sample_size self)) with 0 by lia. exact H0.
Qed.

(** [pop_sample] leaves the reference point in the first slot of the block
    it pops, followed by the neighbours it picked. *)
Lemma pop_sample_block (self : Ransac) (r : Z) (nodes : list node_t)
    (size : Z) :
  0 <= r -> 0 < size <= Z.of_nat (length nodes) ->
  let ref_point := load nodes (Z.rem r size) in
  let '(nodes', size', _) := pop_sample self r nodes size in
  exists neighbours,
    slice size' size nodes' = ref_point :: neighbours
    /\ Forall (fun p => within_deviation self (angle ref_point) p = true)
         neighbours
    /\ Z.of_nat (length neighbours) <= Z.max 0 (sample_size self)
    /\ size' = size - 1 - Z.of_nat (length neighbours)
    /\ 0 <= size'.
Proof.
  intros Hr Hs ref_point. unfold pop_sample. fold ref_point.
  pose proof (neighbour_loop_seed self (angle ref_point) nodes size
                (Z.rem r size)
                ltac:(apply Z.rem_bound_pos; lia) ltac:(lia)) as Hloop.
  destruct (for_up _ _ _ _) as [[nodes1 size1] ref1].
  destruct Hloop as (H1 & H2 & H3 & H4 & H5 & H6).
  assert (size1 <= Z.of_nat (length nodes1)) as Hs1 by lia.
  destruct (pop_node_effects ref1 size1 nodes1 H1 Hs1) as (_ & _ & Hblock).
  destruct (pop_node ref1 nodes1 size1) as [nodes2 size2] eqn:Hpop.
  assert (size2 = size1 - 1) as -> by (unfold pop_node in Hpop; congruence).
  cbn [fst] in Hblock.
  exists (slice size1 size nodes1).
  rewrite (Hblock size H2), H4. fold ref_point.
  assert (Z.of_nat (length (slice size1 size nodes1)) = size - size1) as Hlen.
  { unfold slice. rewrite length_take, length_drop. lia. }
  repeat split; try done; lia.
Qed.

(** ** The association loop, once more *)

Lemma filter_idem {A : Type} (f : A -> bool) (l : list A) :
  List.filter f (List.filter f l) = List.filter f l.
Proof.
  induction l as [|a l IH]; [done|]. cbn.
  destruct (f a) eqn:E; [|done]. cbn. by rewrite E, IH.
Qed.

Lemma filter_disjoint {A : Type} (f g : A -> bool) (l : list A) :
  (forall v, f v = true -> g v = false) ->
  List.filter g (List.filter f l) = [].
Proof.
  intros H. induction l as [|a l IH]; [done|]. cbn.
  destruct (f a) eqn:E; [|done]. cbn. by rewrite (H a E).
Qed.

Lemma associate_again (self : Ransac) (line : line_t) (nodes : list node_t)
    (size : Z) :
  0 <= size <= Z.of_nat (length nodes) ->
  associate self line (associate self line nodes size).1
    (associate self line nodes size).2
  = associate self line nodes size.
Proof.
  intros Hs. rewrite (associate_partition self line nodes size Hs).
  cbn [fst snd].
  set (F := List.filter (far_from_line self line) (active nodes size)).
  set (G := List.filter (near_line self line) (active nodes size)).
  rewrite associate_partition by (rewrite !length_app; lia).
  rewrite active_app, removed_app by done.
  subst F. rewrite filter_idem.
  rewrite (filter_disjoint (far_from_line self line) (near_line self line));
    [done|].
  intros v. unfold far_from_line. by destruct (near_line self line v).
Qed.

(** ** pop_node at the boundary *)

Lemma pop_node_last (nodes : list node_t) (size : Z) :
  0 < size <= Z.of_nat (length nodes) ->
  pop_node (size - 1) nodes size = (nodes, size - 1).
Proof.
  intros Hs.
  destruct (pop_node_split (size - 1) size nodes ltac:(lia) ltac:(lia))
    as (A & p & B & C & -> & HA & HB & ->).
  destruct B; [done | cbn [length] in HB; lia].
Qed.

(** ** Signs *)

(** Rounding keeps the sign it is given. *)
Lemma binary_round_aux_sign (prec emax : Z) (sx : bool) (mx ex : Z)
    (lx : location) :
  sign_bit (binary_round_aux prec emax sx mx ex lx) = sx
  \/ binary_round_aux prec emax sx mx ex lx = S754_nan.
Proof.
  unfold binary_round_aux.
  destruct (shr_fexp prec emax mx ex lx) as [mrs' e'].
  destruct (shr_fexp prec emax _ e' loc_Exact) as [mrs'' e''].
  destruct (shr_m mrs''); [by left | | by right].
  destruct (Z.leb _ _); by left.
Qed.

Lemma SFmul_sign (prec emax : Z) (u v : spec_float) :
  sign_bit u = false -> sign_bit v = false ->
  sign_bit (SFmul prec emax u v) = false.
Proof.
  destruct u as [su|su| |su mu eu], v as [sv|sv| |sv mv ev];
    cbn [sign_bit]; intros Hu Hv; subst; cbn [SFmul xorb sign_bit];
    try done.
  destruct (binary_round_aux_sign prec emax false
              (Z.pos (mu * mv)) (eu + ev) loc_Exact) as [H| ->]; done.
Qed.

Lemma SFmul_square_sign (prec emax : Z) (u : spec_float) :
  sign_bit (SFmul prec emax u u) = false.
Proof.
  destruct u as [[]|[]| |s mu eu]; cbn [SFmul xorb sign_bit]; try done.
  rewrite xorb_nilpotent.
  destruct (binary_round_aux_sign prec emax false
              (Z.pos (mu * mu)) (eu + eu) loc_Exact) as [H| ->]; done.
Qed.

Lemma SFdiv_sign (prec emax : Z) (u v : spec_float) :
  sign_bit u = false -> sign_bit v = false ->
  sign_bit (SFdiv prec emax u v) = false.
Proof.
  destruct u as [su|su| |su mu eu], v as [sv|sv| |sv mv ev];
    cbn [sign_bit]; intros Hu Hv; subst; cbn [SFdiv xorb sign_bit];
    try done.
  destruct (SFdiv_core_binary prec emax (Z.pos mu) eu (Z.pos mv) ev)
    as [[mz ez] lz].
  destruct (binary_round_aux_sign prec emax false mz ez lz) as [H| ->]; done.
Qed.

Lemma SFadd_one_sign (u : spec_float) :
  sign_bit u = false -> sign_bit (F32.add u (F32.of_int 1)) = false.
Proof.
  change (F32.of_int 1) with (S754_finite false 8388608 (-23)).
  unfold F32.add.
  destruct u as [su|su| |su mu eu]; cbn [sign_bit]; intros Hu; subst;
    cbn [SFadd sign_bit]; try done.
  cbn [cond_Zopp]. rewrite <- Pos2Z.inj_add.
  cbn [binary_normalize]. unfold binary_round.
  destruct (shl_align _ _ _) as [mz ez].
  destruct (binary_round_aux_sign F32.prec F32.emax false (Z.pos mz) ez
              loc_Exact) as [H| ->]; done.
Qed.

Lemma dst2_to_line_sign (line : line_t) (px py : float) :
  sign_bit (dst2_to_line line px py) = false.
Proof.
  unfold dst2_to_line, F32.div, F32.mul.
  apply SFdiv_sign.
  - apply SFmul_sign; unfold F32.fabs; by destruct (F32.sub _ _).
  - apply SFadd_one_sign, SFmul_square_sign.
Qed.

Lemma sign_clear_not_below_zero (v : spec_float) :
  sign_bit v = false -> F32.ltb v F32.zero = false.
Proof. destruct v as [s|s| |s mv ev]; cbn; intros Hv; by subst. Qed.

(** ** The result of a call *)

(** With [max_trials] turns of fuel [compute] returns the lines and the
    array of a state the loop reaches. *)
Lemma compute_result (self : Ransac) (rand : nat -> N) (line : line_t)
    (nodes : list node_t) (size : Z) (fuel : nat) :
  (Z.to_nat (max_trials self) <= fuel)%nat ->
  exists st,
    rtc (trial_step self rand line) (initial_state nodes size) st
    /\ loop_guard self st = false
    /\ compute self rand line fuel nodes size
       = Some (set_reg_lines self (ls_lines st), ls_nodes st).
Proof.
  intros Hfuel.
  destruct (while_trials_terminates self rand line fuel
              (initial_state nodes size)) as [st Hw]; [cbn; lia|].
  exists st. unfold compute. rewrite Hw.
  by apply while_trials_reaches in Hw as [Hrtc Hg].
Qed.

Lemma reachable_nonpositive (self : Ransac) (rand : nat -> N) (line : line_t)
    (nodes : list node_t) (size : Z) (st : loop_state) :
  size <= 0 ->
  rtc (trial_step self rand line) (initial_state nodes size) st ->
  st = initial_state nodes size.
Proof.
  intros Hs Hrtc. apply rtc_inv in Hrtc as [->|(s & [Hg _] & _)]; [done|].
  apply andb_prop in Hg as [Hpos _]. apply Z.ltb_lt in Hpos. cbn in Hpos. lia.
Qed.

Lemma reachable_lines_bound (self : Ransac) (rand : nat -> N) (line : line_t)
    (nodes : list node_t) (size : Z) (st : loop_state) :
  size <= Z.of_nat (length nodes) ->
  rtc (trial_step self rand line) (initial_state nodes size) st ->
  block_min self * Z.of_nat (length (ls_lines st)) <= Z.max 0 size.
Proof.
  intros Hs Hrtc.
  destruct (Z.le_gt_cases size 0) as [Hle|Hgt].
  - rewrite (reachable_nonpositive self rand line nodes size st Hle Hrtc).
    cbn. lia.
  - destruct (reachable_tiles self rand line nodes size st Hs Hrtc)
      as [Ht _].
    destruct (reachable_bounds self rand line nodes size st Hs Hrtc)
      as (_ & _ & _ & Hpos).
    apply tiles_length in Ht. lia.
Qed.

Lemma short_strictly_sorted (nodes : list node_t) (size : Z) :
  size <= 1 -> strictly_sorted_by_angle nodes size.
Proof.
  intros Hs. unfold strictly_sorted_by_angle, active.
  destruct (take (Z.to_nat size) nodes) as [|p [|q l]] eqn:E.
  - constructor.
  - repeat constructor.
  - apply (f_equal length) in E. rewrite length_take in E. cbn in E. lia.
Qed.

Lemma slice_whole (start end_ : Z) (nodes : list node_t) :
  0 <= start <= end_ -> end_ <= Z.of_nat (length nodes) ->
  length (slice start end_ nodes) = Z.to_nat (end_ - start)
  /\ slice 0 (end_ - start) (slice start end_ nodes) = slice start end_ nodes.
Proof.
  intros Hs He. unfold slice at 1 3.
  assert (length (take (Z.to_nat (end_ - start)) (drop (Z.to_nat start) nodes))
          = Z.to_nat (end_ - start)) as Hlen
    by (rewrite length_take, length_drop; lia).
  split; [done|]. unfold slice at 1. cbn [Z.to_nat drop].
  rewrite Z.sub_0_r. apply take_ge. unfold slice. lia.
Qed.

(** ** line_t at the intercept *)

Lemma SFeqb_refl (v : spec_float) : is_nan v = false -> SFeqb v v = true.
Proof.
  unfold SFeqb, SFcompare.
  destruct v as [[]|[]| |[] mv ev]; cbn; try done; intros _;
    rewrite Z.compare_refl;
    change (Pos.compare_cont Eq mv mv) with (Pos.compare mv mv);
    by rewrite Pos.compare_refl.
Qed.

Lemma SFsub_same (prec emax : Z) (s : bool) (mv : positive) (ev : Z) :
  SFsub prec emax (S754_finite s mv ev) (S754_finite s mv ev)
  = S754_zero false.
Proof. cbn [SFsub]. by rewrite Z.sub_diag. Qed.

(** ** The block of a trial *)

Lemma slice_app_removed (lo mid hi : Z) (L G R : list node_t) :
  lo = Z.of_nat (length L) -> mid = Z.of_nat (length (L ++ G)) ->
  mid <= hi ->
  slice lo hi (L ++ G ++ R) = G ++ take (Z.to_nat (hi - mid)) R.
Proof.
  intros -> -> Hhi. unfold slice. rewrite Nat2Z.id, drop_app_length.
  rewrite length_app in *.
  replace (Z.to_nat (hi - Z.of_nat (length L)))
    with (length G + Z.to_nat (hi - Z.of_nat (length L + length G)))%nat
    by lia.
  apply take_app_add.
Qed.

(** * Further properties of the code *)

(** X1: on an array whose first [original_size] angles hold no NaN,
    [restore_trial] returns those points sorted ascending by angle, the same
    multiset as before, leaves the rest of the array alone and sets [size] to
    [original_size]; its arguments [ref_index] and [size] play no part. *)
Theorem restore_trial_sorts (nodes : list node_t)
    (ref_index original_size size : Z) :
  original_size <= Z.of_nat (length nodes) ->
  Forall angle_ordered (active nodes original_size) ->
  (restore_trial nodes ref_index original_size size).2 = original_size
  /\ length (restore_trial nodes ref_index original_size size).1
     = length nodes
  /\ active (restore_trial nodes ref_index original_size size).1 original_size
     ≡ₚ active nodes original_size
  /\ removed (restore_trial nodes ref_index original_size size).1
       original_size
     = removed nodes original_size
  /\ StronglySorted angle_le
       (active (restore_trial nodes ref_index original_size size).1
          original_size)
  /\ (forall ref_index' size',
        restore_trial nodes ref_index' original_size size'
        = restore_trial nodes ref_index original_size size).
Proof.
  intros Hn Hord.
  destruct (restore_trial_rearranged nodes ref_index original_size size Hn)
    as [H1 H2 H3].
  repeat split; try done.
  by apply restore_trial_sorted.
Qed.

(** X2: a trial that fails on an active range of strictly ascending angles
    gives back the array exactly as it was, with the size and the lines it
    started from. *)
Theorem failed_trial_is_undone (self : Ransac) (rand : nat -> N)
    (line : line_t) (st : loop_state) :
  0 < ls_size st <= Z.of_nat (length (ls_nodes st)) ->
  strictly_sorted_by_angle (ls_nodes st) (ls_size st) ->
  tr_line_status
    (run_trial self line (Z.of_N (rand (ls_rand_calls st)))
       (ls_nodes st) (ls_size st)) <> 0 ->
  ls_nodes (trial self rand line st) = ls_nodes st
  /\ ls_size (trial self rand line st) = ls_size st
  /\ ls_lines (trial self rand line st) = ls_lines st.
Proof. apply trial_failed_strict. Qed.

(** X3: when [compute] is called on strictly ascending angles, the points
    still active at any time are in the order of the input: the active
    range is a subsequence of the one [compute] was given, and its angles
    are strictly ascending. *)
Theorem strict_angles_keep_order (self : Ransac) (rand : nat -> N)
    (line : line_t) (nodes : list node_t) (size : Z) :
  size <= Z.of_nat (length nodes) ->
  strictly_sorted_by_angle nodes size ->
  forall st,
    rtc (trial_step self rand line) (initial_state nodes size) st ->
    active (ls_nodes st) (ls_size st) `sublist_of` active nodes size
    /\ strictly_sorted_by_angle (ls_nodes st) (ls_size st).
Proof.
  intros Hs Hstrict st Hrtc.
  by destruct (reachable_strict self rand line nodes size st Hs Hstrict Hrtc)
    as (? & ? & _).
Qed.

(** X4: when [compute] is called on strictly ascending angles and returns
    no line, it returns the array exactly as it received it. *)
Theorem no_line_no_change (self : Ransac) (rand : nat -> N) (line : line_t)
    (nodes : list node_t) (size : Z) (fuel : nat) :
  size <= Z.of_nat (length nodes) ->
  strictly_sorted_by_angle nodes size ->
  (Z.to_nat (max_trials self) <= fuel)%nat ->
  exists self' nodes',
    compute self rand line fuel nodes size = Some (self', nodes')
    /\ (reg_lines self' = [] -> nodes' = nodes).
Proof.
  intros Hs Hstrict Hfuel.
  destruct (compute_result self rand line nodes size fuel Hfuel)
    as (st & Hrtc & _ & ->).
  eexists _, _. split; [done|]. cbn [reg_lines set_reg_lines].
  intros E.
  by destruct (reachable_strict self rand line nodes size st Hs Hstrict Hrtc)
    as (_ & _ & H); destruct (H E).
Qed.

(** X5: the lines [compute] returns are, in the order of their acceptance,
    the fits of consecutive blocks of the array it returns: the blocks tile
    the slots [[ls_size st, size)] from [size] downwards, [st] being the
    state on which the loop stops and [ls_size st] the number of points
    left active, and each holds at least two points and at least
    [line_consensus] points. *)
Theorem lines_fit_consumed_blocks (self : Ransac) (rand : nat -> N)
    (line : line_t) (nodes : list node_t) (size : Z) (fuel : nat) :
  size <= Z.of_nat (length nodes) ->
  (Z.to_nat (max_trials self) <= fuel)%nat ->
  exists st,
    while_trials self rand line fuel (initial_state nodes size) = Some st
    /\ compute self rand line fuel nodes size
       = Some (set_reg_lines self (ls_lines st), ls_nodes st)
    /\ ls_size st <= size /\ (0 <= size -> 0 <= ls_size st)
    /\ tiles self (ls_nodes st) size (ls_lines st) (ls_size st).
Proof.
  intros Hs Hfuel.
  destruct (while_trials_terminates self rand line fuel
              (initial_state nodes size)) as [st Hw]; [cbn; lia|].
  exists st. unfold compute. rewrite Hw.
  apply while_trials_reaches in Hw as [Hrtc _].
  destruct (reachable_bounds self rand line nodes size st Hs Hrtc)
    as (_ & _ & H1 & H2).
  destruct (reachable_tiles self rand line nodes size st Hs Hrtc) as [Ht _].
  done.
Qed.

(** X6: [compute] returns at most [max_trials] lines, and at most
    [size / k] of them for [k] the larger of 2 and [line_consensus]; it
    returns none when [size < k]. *)
Theorem lines_are_bounded (self : Ransac) (rand : nat -> N) (line : line_t)
    (nodes : list node_t) (size : Z) (fuel : nat) :
  size <= Z.of_nat (length nodes) ->
  (Z.to_nat (max_trials self) <= fuel)%nat ->
  exists self' nodes',
    compute self rand line fuel nodes size = Some (self', nodes')
    /\ Z.of_nat (length (reg_lines self')) <= Z.max 0 (max_trials self)
    /\ Z.max 2 (line_consensus self) * Z.of_nat (length (reg_lines self'))
       <= Z.max 0 size
    /\ (size < Z.max 2 (line_consensus self) -> reg_lines self' = []).
Proof.
  intros Hs Hfuel.
  destruct (compute_result self rand line nodes size fuel Hfuel)
    as (st & Hrtc & _ & ->).
  eexists _, _. split; [done|]. cbn [reg_lines set_reg_lines].
  destruct (reachable_tiles self rand line nodes size st Hs Hrtc) as [_ Hc].
  destruct (reachable_counts self rand line nodes size st Hrtc) as [_ Hb].
  pose proof (reachable_lines_bound self rand line nodes size st Hs Hrtc)
    as Hl.
  unfold block_min in Hl.
  split; [lia | split; [done|]].
  intros Hsmall. destruct (ls_lines st) as [|l ls]; [done|].
  cbn [length] in Hl. nia.
Qed.

(** X7: on an input of fewer than two points [compute] returns no line and
    the array exactly as it received it, whatever the configuration and the
    random draws. *)
Theorem short_scan_untouched (self : Ransac) (rand : nat -> N) (line : line_t)
    (nodes : list node_t) (size : Z) (fuel : nat) :
  size <= 1 -> size <= Z.of_nat (length nodes) ->
  (Z.to_nat (max_trials self) <= fuel)%nat ->
  compute self rand line fuel nodes size
  = Some (set_reg_lines self [], nodes).
Proof.
  intros Hshort Hs Hfuel.
  destruct (compute_result self rand line nodes size fuel Hfuel)
    as (st & Hrtc & _ & ->).
  pose proof (reachable_lines_bound self rand line nodes size st Hs Hrtc)
    as Hl.
  pose proof (block_min_ge self) as [Hb _].
  assert (ls_lines st = []) as E.
  { destruct (ls_lines st) as [|l ls]; [done|]. cbn [length] in Hl. nia. }
  destruct (reachable_strict self rand line nodes size st Hs
              (short_strictly_sorted nodes size Hshort) Hrtc)
    as (_ & _ & H).
  destruct (H E) as [-> _]. by rewrite E.
Qed.

(** X8: the points a trial has consumed stay where they are: from any
    state the loop reaches, later trials never enlarge the active range and
    only rearrange the points inside it, so the slots from the current
    [size] on keep their contents. *)
Theorem consumed_points_stay (self : Ransac) (rand : nat -> N) (line : line_t)
    (nodes : list node_t) (size : Z) (st st' : loop_state) :
  size <= Z.of_nat (length nodes) ->
  rtc (trial_step self rand line) (initial_state nodes size) st ->
  rtc (trial_step self rand line) st st' ->
  ls_size st' <= ls_size st
  /\ removed (ls_nodes st') (ls_size st) = removed (ls_nodes st) (ls_size st)
  /\ active (ls_nodes st') (ls_size st) ≡ₚ active (ls_nodes st) (ls_size st).
Proof.
  intros Hs Hrtc Hrtc'.
  destruct (reachable_bounds self rand line nodes size st Hs Hrtc)
    as (Hb & _).
  destruct (steps_rearranged self rand line st st' Hb Hrtc')
    as [[_ Hperm Hrem] Hle].
  done.
Qed.

(** X9: the sample of a trial.  After the reference point and its
    neighbours are popped, the block [[size', size)] of the array starts
    with the reference point, the point at index [rand() % size] of the
    array the trial started from; the points after it are neighbours whose
    angle is within [sample_deviation] of the reference angle, and there
    are at most [sample_size] of them. *)
Theorem sample_block (self : Ransac) (r : Z) (nodes : list node_t)
    (size : Z) :
  0 <= r -> 0 < size <= Z.of_nat (length nodes) ->
  let ref_point := load nodes (Z.rem r size) in
  exists neighbours,
    slice (pop_sample self r nodes size).1.2 size
      (pop_sample self r nodes size).1.1
    = ref_point :: neighbours
    /\ Forall (fun p => within_deviation self (angle ref_point) p = true)
         neighbours
    /\ Z.of_nat (length neighbours) <= Z.max 0 (sample_size self)
    /\ (pop_sample self r nodes size).1.2
       = size - 1 - Z.of_nat (length neighbours)
    /\ 0 <= (pop_sample self r nodes size).1.2.
Proof.
  intros Hr Hs ref_point.
  pose proof (pop_sample_block self r nodes size Hr Hs) as H.
  cbn zeta in H. fold ref_point in H.
  by destruct (pop_sample self r nodes size) as [[nodes' size'] ref'].
Qed.

(** X10: running the association loop a second time with the same line
    pops nothing: the array and the size are those of the first run. *)
Theorem associate_twice (self : Ransac) (line : line_t) (nodes : list node_t)
    (size : Z) :
  0 <= size <= Z.of_nat (length nodes) ->
  associate self line (associate self line nodes size).1
    (associate self line nodes size).2
  = associate self line nodes size.
Proof. apply associate_again. Qed.

(** X11: [dst2_to_line] never returns a negative number: its result is a
    NaN or has a clear sign bit, so it never compares below zero; the
    threshold [proximity_epsilon * proximity_epsilon] is of the same
    kind. *)
Theorem dst2_to_line_not_negative (self : Ransac) (line : line_t)
    (px py : float) :
  sign_bit (dst2_to_line line px py) = false
  /\ F32.ltb (dst2_to_line line px py) F32.zero = false
  /\ sign_bit (epsilon2 self) = false.
Proof.
  split; [apply dst2_to_line_sign | split].
  - apply sign_clear_not_below_zero, dst2_to_line_sign.
  - apply SFmul_square_sign.
Qed.

(** X12: [compute_reg_line] and the line it receives by reference.  On
    failure the line is left as it was (the test on [b_denom], placed after
    the assignment of [line.m], never fires); on success both fields are
    overwritten, so the result does not depend on the line passed.  The
    fit reads only the points of its window: it is the fit of the block
    [[start, end)] taken as an array of its own. *)
Theorem compute_reg_line_out_parameter (start end_ : Z) (nodes : list node_t)
    (line : line_t) :
  ((compute_reg_line start end_ nodes line).1 = -1 ->
   (compute_reg_line start end_ nodes line).2 = line)
  /\ ((compute_reg_line start end_ nodes line).1 = 0 ->
      forall line',
        compute_reg_line start end_ nodes line'
        = compute_reg_line start end_ nodes line)
  /\ (0 <= start <= end_ -> end_ <= Z.of_nat (length nodes) ->
      compute_reg_line start end_ nodes line
      = compute_reg_line 0 (end_ - start) (slice start end_ nodes) line).
Proof.
  split; [|split].
  - rewrite compute_reg_line_unfold. by destruct (_ || _).
  - intros H line'. symmetry. by apply compute_reg_line_success.
  - intros Hs He.
    destruct (slice_whole start end_ nodes Hs He) as [Hlen Hsl].
    rewrite !compute_reg_line_unfold.
    rewrite (reg_sums_slice start end_ nodes Hs He).
    rewrite (reg_sums_slice 0 (end_ - start)) by lia.
    by rewrite Hsl, Z.sub_0_r.
Qed.

(** X13: popping the last active point moves no point: [pop_node] at index
    [size - 1] returns the array as it is and [size - 1]. *)
Theorem pop_node_at_boundary (nodes : list node_t) (size : Z) :
  0 < size <= Z.of_nat (length nodes) ->
  pop_node (size - 1) nodes size = (nodes, size - 1).
Proof. apply pop_node_last. Qed.

(** X14: a line passes through its intercept.  When the slope is finite
    and the intercept is not NaN, [get_y(0)] equals the intercept; when
    the slope is not NaN and the intercept is finite, [get_x(b)] equals 0
    (both as [==] on [float]). *)
Theorem line_through_intercept (l : line_t) :
  (is_nan (m l) = false -> is_infinite (m l) = false ->
   is_nan (b l) = false ->
   F32.eqb (get_y l F32.zero) (b l) = true)
  /\ (is_nan (m l) = false ->
      is_nan (b l) = false -> is_infinite (b l) = false ->
      F32.eqb (get_x l (b l)) F32.zero = true).
Proof.
  destruct l as [lm lb]. cbn [m b]. split.
  - intros Hm Hi Hb. unfold get_y, F32.eqb, F32.add, F32.mul, F32.zero.
    cbn [m b].
    destruct lm as [sm|sm| |sm mm em]; try done;
      destruct lb as [sb|sb| |sb mb eb]; try done;
      cbn [SFmul SFadd xorb]; try (by apply SFeqb_refl);
      destruct sm, sb; done.
  - intros Hm Hb Hi. unfold get_x, F32.eqb, F32.sub, F32.div, F32.zero.
    cbn [m b].
    change (F32.of_int 0) with (S754_zero false).
    destruct lm as [sm|sm| |sm mm em]; try done;
      destruct lb as [sb|sb| |sb mb eb]; try done;
      rewrite ?SFsub_same; try (by destruct sm, sb).
Qed.

(** X15: the block a trial consumes.  When the seed fit succeeds, the
    points left active after the association are the points that were
    active after the sample was popped and fail the test
    [dst2 <= epsilon2] against the seed line, in their order; the slots
    [[size', original_trial_size)] hold the points that pass it, in their
    order, followed by the block of the sample (the reference point, then
    its neighbours). *)
Theorem trial_block_layout (self : Ransac) (line : line_t) (r : Z)
    (nodes : list node_t) (size : Z) :
  0 <= r -> 0 < size <= Z.of_nat (length nodes) ->
  let t := run_trial self line r nodes size in
  let nodes1 := (pop_sample self r nodes size).1.1 in
  let size1 := (pop_sample self r nodes size).1.2 in
  tr_seed_status t = 0 ->
  exists seed,
    seed_fit size nodes1 size1 line = (0, seed)
    /\ active (tr_nodes t) (tr_size t)
       = List.filter (far_from_line self seed) (active nodes1 size1)
    /\ slice (tr_size t) size (tr_nodes t)
       = List.filter (near_line self seed) (active nodes1 size1)
         ++ slice size1 size nodes1.
Proof.
  intros Hr Hs t nodes1 size1. subst t nodes1 size1. unfold run_trial.
  pose proof (pop_sample_popped self r nodes size Hr Hs) as Hp.
  destruct (pop_sample self r nodes size) as [[nodes1 size1] ref1].
  destruct Hp as [Hp Hlt]. cbn [fst snd].
  assert (0 <= size1 <= Z.of_nat (length nodes1)) as Hs1.
  { rewrite (popped_from_length _ _ _ _ Hp). destruct Hp. lia. }
  destruct (seed_fit size nodes1 size1 line) as [seed_status seed].
  destruct (Z.eqb_spec seed_status 0) as [->|Hne].
  - rewrite (associate_partition self seed nodes1 size1 Hs1).
    set (F := List.filter (far_from_line self seed) (active nodes1 size1)).
    set (G := List.filter (near_line self seed) (active nodes1 size1)).
    assert (size1 = Z.of_nat (length (F ++ G))) as HFG.
    { subst F G. unfold far_from_line. rewrite length_app.
      rewrite filter_partition_length. unfold active.
      rewrite length_take. lia. }
    destruct (_ && _);
      try match goal with
          | |- context [compute_reg_line ?a ?b ?c ?d] =>
              destruct (compute_reg_line a b c d)
          end;
      cbn [tr_seed_status tr_nodes tr_size]; intros _; exists seed;
      (split; [done | split; [by apply active_app|]]);
      (rewrite (slice_app_removed _ size1) by (done || lia));
      f_equal; unfold slice, removed; do 2 f_equal; lia.
  - rewrite andb_false_r. cbn. done.
Qed.

(** * Instances of the further properties *)

Lemma sample_scan_strictly_sorted : strictly_sorted_by_angle Sample.scan 6.
Proof.
  unfold strictly_sorted_by_angle.
  change (active Sample.scan 6) with Sample.scan.
  repeat constructor.
Qed.

Lemma restore_trial_sorts_witness :
  4 <= Z.of_nat (length Probe.shuffled)
  /\ Forall angle_ordered (active Probe.shuffled 4)
  /\ StronglySorted angle_le
       (active (restore_trial Probe.shuffled 0 4 3).1 4).
Proof.
  assert (Forall angle_ordered (active Probe.shuffled 4)) as H
    by (repeat constructor).
  split; [cbn; lia | split; [exact H|]].
  apply (restore_trial_sorts Probe.shuffled 0 4 3); [cbn; lia | exact H].
Defined.

Lemma failed_trial_is_undone_witness :
  ls_nodes (trial Sample.strict Sample.rand Sample.no_line
              (initial_state Sample.scan 6))
  = Sample.scan.
Proof.
  apply (failed_trial_is_undone Sample.strict Sample.rand Sample.no_line
           (initial_state Sample.scan 6)).
  - cbn; lia.
  - exact sample_scan_strictly_sorted.
  - by vm_compute.
Defined.

Lemma strict_angles_keep_order_witness :
  let st := trial Sample.ransac Sample.rand Sample.no_line
              (initial_state Sample.scan 6) in
  active (ls_nodes st) (ls_size st) `sublist_of` active Sample.scan 6.
Proof.
  intros st.
  refine (proj1 (strict_angles_keep_order Sample.ransac Sample.rand
                   Sample.no_line Sample.scan 6 _
                   sample_scan_strictly_sorted st _)).
  - cbn; lia.
  - eapply rtc_l; [|apply rtc_refl]. split; [by vm_compute | reflexivity].
Defined.

Lemma no_line_no_change_witness :
  exists self' nodes',
    compute Sample.strict Sample.rand Sample.no_line 5 Sample.scan 6
    = Some (self', nodes')
    /\ (reg_lines self' = [] -> nodes' = Sample.scan).
Proof.
  apply (no_line_no_change Sample.strict Sample.rand Sample.no_line
           Sample.scan 6 5).
  - cbn; lia.
  - exact sample_scan_strictly_sorted.
  - cbn; lia.
Defined.

Lemma lines_fit_consumed_blocks_witness :
  exists st,
    while_trials Sample.ransac Sample.rand Sample.no_line 5
      (initial_state Sample.scan 6) = Some st
    /\ compute Sample.ransac Sample.rand Sample.no_line 5 Sample.scan 6
       = Some (set_reg_lines Sample.ransac (ls_lines st), ls_nodes st)
    /\ ls_size st <= 6 /\ (0 <= 6 -> 0 <= ls_size st)
    /\ tiles Sample.ransac (ls_nodes st) 6 (ls_lines st) (ls_size st).
Proof.
  apply (lines_fit_consumed_blocks Sample.ransac Sample.rand Sample.no_line
           Sample.scan 6 5); cbn; lia.
Defined.

Lemma lines_are_bounded_witness :
  exists self' nodes',
    compute Sample.ransac Sample.rand Sample.no_line 5 Sample.scan 6
    = Some (self', nodes')
    /\ Z.of_nat (length (reg_lines self')) <= 5.
Proof.
  destruct (lines_are_bounded Sample.ransac Sample.rand Sample.no_line
              Sample.scan 6 5) as (self' & nodes' & H1 & H2 & _);
    [cbn; lia | cbn; lia |].
  exists self', nodes'. split; [exact H1 | exact H2].
Defined.

Lemma short_scan_untouched_witness :
  compute Sample.ransac Sample.rand Sample.no_line 5 Probe.one_point 1
  = Some (set_reg_lines Sample.ransac [], Probe.one_point).
Proof.
  apply (short_scan_untouched Sample.ransac Sample.rand Sample.no_line
           Probe.one_point 1 5); [lia | cbn; lia | cbn; lia].
Defined.

Lemma consumed_points_stay_witness :
  let st := initial_state Sample.scan 6 in
  let st' := trial Sample.ransac Sample.rand Sample.no_line st in
  ls_size st' <= 6.
Proof.
  intros st st'.
  refine (proj1 (consumed_points_stay Sample.ransac Sample.rand
                   Sample.no_line Sample.scan 6 st st' _ _ _)).
  - cbn; lia.
  - apply rtc_refl.
  - eapply rtc_l; [|apply rtc_refl]. split; [by vm_compute | reflexivity].
Defined.

Lemma sample_block_witness :
  0 <= 1 /\ 0 < 6 <= Z.of_nat (length Sample.scan)
  /\ exists neighbours,
       slice (pop_sample Sample.ransac 1 Sample.scan 6).1.2 6
         (pop_sample Sample.ransac 1 Sample.scan 6).1.1
       = load Sample.scan (Z.rem 1 6) :: neighbours
       /\ Z.of_nat (length neighbours) <= 3.
Proof.
  split; [lia | split; [cbn; lia|]].
  destruct (sample_block Sample.ransac 1 Sample.scan 6)
    as (neighbours & H1 & _ & H2 & _); [lia | cbn; lia |].
  exists neighbours. split; [exact H1 | exact H2].
Defined.

Lemma associate_twice_witness :
  associate Sample.ransac Probe.line
    (associate Sample.ransac Probe.line Sample.scan 6).1
    (associate Sample.ransac Probe.line Sample.scan 6).2
  = associate Sample.ransac Probe.line Sample.scan 6.
Proof.
  apply (associate_twice Sample.ransac Probe.line Sample.scan 6). cbn; lia.
Defined.

Lemma dst2_to_line_not_negative_witness :
  F32.ltb (dst2_to_line Sample.steep (F32.of_int 1) F32.zero) F32.zero
  = false.
Proof.
  apply (dst2_to_line_not_negative Sample.ransac Sample.steep (F32.of_int 1)
           F32.zero).
Defined.

Lemma compute_reg_line_out_parameter_witness :
  (compute_reg_line 0 2 Sample.vertical Sample.no_line).1 = 0
  /\ compute_reg_line 4 6 Sample.scan Sample.no_line
     = compute_reg_line 0 (6 - 4) (slice 4 6 Sample.scan) Sample.no_line.
Proof.
  split; [by vm_compute|].
  apply (compute_reg_line_out_parameter 4 6 Sample.scan Sample.no_line);
    [lia | cbn; lia].
Defined.

Lemma pop_node_at_boundary_witness :
  pop_node (6 - 1) Sample.scan 6 = (Sample.scan, 6 - 1).
Proof. apply (pop_node_at_boundary Sample.scan 6). cbn; lia. Defined.

Lemma line_through_intercept_witness :
  F32.eqb (get_y Probe.line F32.zero) (b Probe.line) = true
  /\ F32.eqb (get_x Probe.line (b Probe.line)) F32.zero = true.
Proof.
  split.
  - by apply (line_through_intercept Probe.line).
  - by apply (line_through_intercept Probe.line).
Defined.

Lemma trial_block_layout_witness :
  let t := run_trial Sample.ransac Sample.no_line 1 Sample.scan 6 in
  exists seed,
    active (tr_nodes t) (tr_size t)
    = List.filter (far_from_line Sample.ransac seed)
        (active (pop_sample Sample.ransac 1 Sample.scan 6).1.1
           (pop_sample Sample.ransac 1 Sample.scan 6).1.2).
Proof.
  intros t.
  destruct (trial_block_layout Sample.ransac Sample.no_line 1 Sample.scan 6)
    as (seed & _ & H & _); [lia | cbn; lia | by vm_compute |].
  by exists seed.
Defined.
